(** * Hiero message box: the Hedera access layer (src/lib/hedera.js)

    A shallow embedding of the ledger / mirror-node access functions of the
    message box, and the properties of its cursor based polling. *)

From Stdlib Require Import ZArith String Ascii List Bool Lia.
From Stdlib Require Import DecimalString DecimalPos DecimalZ Sorted.
From stdpp Require Import gmap strings list.

Open Scope Z_scope.

(** ** JavaScript values as the source uses them *)

Module JS.

(** A thrown [Error]: only its [message] is ever read by the source. *)
Inductive outcome (A : Type) : Type :=
| Return (a : A)
| Throw (message : string).
Arguments Return {A} a.
Arguments Throw {A} message.

Definition bind {A B} (m : outcome A) (k : A -> outcome B) : outcome B :=
  match m with
  | Return a => k a
  | Throw e => Throw e
  end.

(** [try { ... } catch (error) { throw new Error(`${prefix}${error.message}`) }] *)
Definition rethrow {A} (prefix : string) (m : outcome A) : outcome A :=
  match m with
  | Return a => Return a
  | Throw e => Throw (prefix +:+ e)
  end.

(** Truthiness of a number: sequence numbers and limits are integers, so
    the only falsy number is [0]. *)
Definition truthy_number (n : Z) : bool := negb (n =? 0).

(** Truthiness of a string: only the empty string is falsy. *)
Definition truthy_string (s : string) : bool := negb (String.eqb s "").

(** Truthiness of an optional property ([undefined] when absent). *)
Definition truthy_opt_number (o : option Z) : bool :=
  match o with Some n => truthy_number n | None => false end.

Definition truthy_opt_string (o : option string) : bool :=
  match o with Some s => truthy_string s | None => false end.

(** [String(n)] for an integer [n]: its decimal digits, with a leading
    minus sign when negative. That is what JavaScript prints for the
    integers it holds exactly, those of absolute value below 2^53; from
    1e21 on it prints an exponent. *)
Definition number_toString (n : Z) : string :=
  NilZero.string_of_int (Z.to_int n).

Definition lower_char (c : ascii) : ascii :=
  let n := N_of_ascii c in
  if ((65 <=? n) && (n <=? 90))%N then ascii_of_N (n + 32) else c.

(** [s.toLowerCase()] on the bytes of [s]: the letters [A-Z] are the only
    bytes whose lower case is an ASCII letter of ["mainnet"]. *)
Fixpoint toLowerCase (s : string) : string :=
  match s with
  | EmptyString => EmptyString
  | String c r => String (lower_char c) (toLowerCase r)
  end.

End JS.

(** ** URLSearchParams *)

Module URLSearchParams.

(** The object is an ordered list of name/value pairs. *)
Definition t := list (string * string).

Definition empty : t := [].

(** [params.append(name, value)] *)
Definition append (params : t) (name value : string) : t :=
  params ++ [(name, value)].

Definition is_unreserved (c : ascii) : bool :=
  let n := N_of_ascii c in
  (((48 <=? n) && (n <=? 57)) || ((65 <=? n) && (n <=? 90))
   || ((97 <=? n) && (n <=? 122))
   || (n =? 42) || (n =? 45) || (n =? 46) || (n =? 95))%N.

Definition hex_digit (n : N) : ascii :=
  if (n <? 10)%N then ascii_of_N (48 + n) else ascii_of_N (55 + n).

(** application/x-www-form-urlencoded byte serializer. *)
Definition encode_byte (c : ascii) : string :=
  if is_unreserved c then String c EmptyString
  else if Ascii.eqb c " " then "+"
  else let n := N_of_ascii c in
       String "%" (String (hex_digit (n / 16)) (String (hex_digit (n mod 16)) EmptyString)).

Fixpoint encode (s : string) : string :=
  match s with
  | EmptyString => EmptyString
  | String c r => encode_byte c +:+ encode r
  end.

Definition serialize_pair (p : string * string) : string :=
  encode (fst p) +:+ "=" +:+ encode (snd p).

Fixpoint join_amp (pieces : list string) : string :=
  match pieces with
  | [] => EmptyString
  | [p] => p
  | p :: rest => p +:+ "&" +:+ join_amp rest
  end.

(** [params.toString()] *)
Definition toString (params : t) : string :=
  join_amp (map serialize_pair params).

(** The receiving side: the urlencoded parser. *)

Definition hex_value (c : ascii) : option N :=
  let n := N_of_ascii c in
  if ((48 <=? n) && (n <=? 57))%N then Some (n - 48)%N
  else if ((65 <=? n) && (n <=? 70))%N then Some (n - 55)%N
  else if ((97 <=? n) && (n <=? 102))%N then Some (n - 87)%N
  else None.

Fixpoint decode (s : string) : string :=
  match s with
  | EmptyString => EmptyString
  | String c r =>
      if Ascii.eqb c "+" then String " " (decode r)
      else if Ascii.eqb c "%" then
        match r with
        | String h (String l r') =>
            match hex_value h, hex_value l with
            | Some a, Some b => String (ascii_of_N (16 * a + b)) (decode r')
            | _, _ => String c (decode r)
            end
        | _ => String c (decode r)
        end
      else String c (decode r)
  end.

(** Splits at every occurrence of [sep]. *)
Fixpoint split_on (sep : ascii) (s : string) : list string :=
  match s with
  | EmptyString => [EmptyString]
  | String c r =>
      if Ascii.eqb c sep then EmptyString :: split_on sep r
      else match split_on sep r with
           | [] => [String c EmptyString]
           | p :: ps => String c p :: ps
           end
  end.

(** Splits at the first occurrence of [sep]; no [sep]: the second half
    is empty. *)
Fixpoint split_first (sep : ascii) (s : string) : string * string :=
  match s with
  | EmptyString => (EmptyString, EmptyString)
  | String c r =>
      if Ascii.eqb c sep then (EmptyString, r)
      else let '(a, b) := split_first sep r in (String c a, b)
  end.

Definition parse_piece (piece : string) : string * string :=
  let '(n, v) := split_first "=" piece in (decode n, decode v).

Definition parse (query : string) : t :=
  map parse_piece
      (filter (fun piece => piece <> EmptyString) (split_on "&" query)).

(** [sep] does not occur in [s]. *)
Fixpoint free_of (sep : ascii) (s : string) : bool :=
  match s with
  | EmptyString => true
  | String c r => negb (Ascii.eqb c sep) && free_of sep r
  end.

(** [params.get(name)]: the first value of that name. *)
Fixpoint get (params : t) (name : string) : option string :=
  match params with
  | [] => None
  | (n, v) :: rest => if String.eqb n name then Some v else get rest name
  end.

End URLSearchParams.

(** ** src/lib/hedera.js *)

Module Hedera.
Import JS.

(** *** The SDK objects the module touches *)

Inductive network_kind : Set := Mainnet | Testnet.

(** An account id and a private key of the SDK, each known by the text
    it prints as. *)
Record AccountId : Set := { account_text : string }.
Record PrivateKey : Set := { key_text : string }.

(** [AccountId.fromString] and [PrivateKey.fromStringDer]. The SDK is
    not part of the repository: what the two parsers make of a text is
    left open. Each builds its object or throws. *)
Record Sdk : Type := {
  AccountId_fromString : string -> outcome AccountId;
  PrivateKey_fromStringDer : string -> outcome PrivateKey
}.

Record Client : Set := {
  client_network : network_kind;
  client_operator : option (AccountId * PrivateKey)
}.

Definition Client_forMainnet : Client :=
  {| client_network := Mainnet; client_operator := None |}.
Definition Client_forTestnet : Client :=
  {| client_network := Testnet; client_operator := None |}.
Definition Client_setOperator (c : Client) (id : AccountId) (key : PrivateKey) : Client :=
  {| client_network := client_network c; client_operator := Some (id, key) |}.

(** [client.getMirrorNodeUrl()]: the SDK's [Client] has no method of that
    name, the call throws a TypeError. *)
Definition Client_getMirrorNodeUrl (c : Client) : outcome string :=
  Throw "client.getMirrorNodeUrl is not a function".

(** What [initializeClient] does to the outside, in program order. *)
Inductive effect : Set :=
| ClientConstructed (network : network_kind)
| OperatorSet (id : AccountId) (key : PrivateKey)
| ConsoleDebug (line : string).

Record TransactionReceipt : Set := {
  receipt_status : string;              (* receipt.status.toString() *)
  receipt_topicSequenceNumber : Z       (* receipt.topicSequenceNumber *)
}.

(** A plain object literal, as a finite map from property names. *)
Inductive jsval : Set :=
| JBool (b : bool)
| JString (s : string)
| JNumber (n : Z).

(** *** The mirror node's JSON *)

Record message : Set := {
  sequence_number : Z;
  consensus_timestamp : string;
  message_body : string                 (* the base64 [message] member *)
}.

(** The parsed body is a JSON object; its [messages] member is an array
    of entries, or absent. *)
Record response : Set := { messages : option (list message) }.

(** How [https.get(url)] ends for [queryTopicMessages], for a [url] that
    [https.get] takes and a body that, when it parses, is not [null]. *)
Inductive http_outcome : Set :=
| RequestError (message : string)       (* the request's 'error' event *)
| UnparsableBody (message : string)     (* JSON.parse threw *)
| Body (r : response).

Record query_options : Set := {
  limit : option Z;
  order : option string;
  sequenceNumber : option Z;
  operator : option string
}.

(** *** Private functions *)

Definition isTransactionSuccessful (receipt : TransactionReceipt) : bool :=
  String.eqb (receipt_status receipt) "SUCCESS".

(** *** Public functions *)

Definition initializeClient (sdk : Sdk) (process_env : gmap string string)
  : list effect * outcome Client :=
  let operatorId := process_env !! "HEDERA_ACCOUNT_ID" in
  let operatorKey := process_env !! "HEDERA_PRIVATE_KEY" in
  let network :=
    match process_env !! "HEDERA_NETWORK" with
    | Some n => if truthy_string n then n else "testnet"
    | None => "testnet"
    end in
  match operatorId, operatorKey with
  | Some id, Some key =>
      if truthy_string id && truthy_string key then
        let made := if String.eqb (toLowerCase network) "mainnet"
                    then Client_forMainnet else Client_forTestnet in
        (* the arguments of [setOperator], left to right *)
        match AccountId_fromString sdk id with
        | Throw e => ([ClientConstructed (client_network made)], Throw e)
        | Return account =>
            match PrivateKey_fromStringDer sdk key with
            | Throw e => ([ClientConstructed (client_network made)], Throw e)
            | Return private =>
                ([ClientConstructed (client_network made);
                  OperatorSet account private;
                  ConsoleDebug ("✓ Hedera client initialized (" +:+ network +:+ ")")],
                 Return (Client_setOperator made account private))
            end
        end
      else
        ([], Throw "✗ Please set HEDERA_ACCOUNT_ID and HEDERA_PRIVATE_KEY environment variables")
  | _, _ =>
      ([], Throw "✗ Please set HEDERA_ACCOUNT_ID and HEDERA_PRIVATE_KEY environment variables")
  end.

(** [client] is [None] when the caller passes no argument: reading a
    property of [undefined] throws a TypeError. *)
Definition getMirrorNodeUrl (process_env : gmap string string)
    (client : option Client) : outcome string :=
  match process_env !! "MIRROR_NODE_URL" with
  | Some u =>
      if truthy_string u then Return u
      else match client with
           | Some c => Client_getMirrorNodeUrl c
           | None => Throw "Cannot read properties of undefined (reading 'getMirrorNodeUrl')"
           end
  | None =>
      match client with
      | Some c => Client_getMirrorNodeUrl c
      | None => Throw "Cannot read properties of undefined (reading 'getMirrorNodeUrl')"
      end
  end.

(** The ledger answers a submitted transaction with a receipt, or the
    SDK call rejects. *)
Definition submitMessageToHCS
    (execute : Client -> string -> string -> outcome TransactionReceipt)
    (client : Client) (topicId message : string)
  : outcome (gmap string jsval) :=
  bind (execute client topicId message) (fun receipt =>
    if isTransactionSuccessful receipt then
      Return (<["success" := JBool true]> (<["topicId" := JString topicId]> ∅))
    else
      Return (<["success" := JBool false]>
                (<["error" := JString (receipt_status receipt)]> ∅))).

(** The [URLSearchParams] built at the head of [queryTopicMessages]. *)
Definition query_params (options : query_options) : URLSearchParams.t :=
  let params := URLSearchParams.empty in
  let params :=
    match limit options with
    | Some l => if truthy_number l
                then URLSearchParams.append params "limit" (number_toString l)
                else params
    | None => params
    end in
  let params :=
    match order options with
    | Some o => if truthy_string o
                then URLSearchParams.append params "order" o
                else params
    | None => params
    end in
  match sequenceNumber options, operator options with
  | Some n, Some op =>
      if truthy_number n && truthy_string op
      then URLSearchParams.append params "sequencenumber"
             (op +:+ ":" +:+ number_toString n)
      else params
  | _, _ => params
  end.

(** The [url] handed to [https.get]. [getMirrorNodeUrl] is called
    without a client. *)
Definition query_url (process_env : gmap string string)
    (topicId : string) (options : query_options) : outcome string :=
  bind (getMirrorNodeUrl process_env None) (fun mirrorNodeUrl =>
    Return (mirrorNodeUrl +:+ "/api/v1/topics/" +:+ topicId +:+ "/messages?"
            +:+ URLSearchParams.toString (query_params options))).

Definition queryTopicMessages (process_env : gmap string string)
    (https_get : string -> http_outcome)
    (topicId : string) (options : query_options) : outcome response :=
  bind (query_url process_env topicId options) (fun url =>
    match https_get url with
    | Body r => Return r
    | UnparsableBody e => Throw ("Failed to parse Mirror Node response: " +:+ e)
    | RequestError e => Throw ("Mirror Node request failed: " +:+ e)
    end).

(** [null] is [None]. *)
Definition getLatestSequenceNumber (process_env : gmap string string)
    (https_get : string -> http_outcome) (topicId : string)
  : outcome (option Z) :=
  rethrow "Failed to get latest sequence number: "
    (bind (queryTopicMessages process_env https_get topicId
             {| limit := Some 1; order := Some "desc";
                sequenceNumber := None; operator := None |})
       (fun response =>
          Return match messages response with
                 | Some (m :: _) =>
                     if truthy_number (sequence_number m)
                     then Some (sequence_number m) else None
                 | _ => None
                 end)).

Definition getNewMessages (process_env : gmap string string)
    (https_get : string -> http_outcome)
    (topicId : string) (afterSequenceNumber : Z)
  : outcome (list message) :=
  rethrow "Failed to get new messages: "
    (bind (queryTopicMessages process_env https_get topicId
             {| limit := Some 100; order := Some "asc";
                sequenceNumber := Some afterSequenceNumber;
                operator := Some "gt" |})
       (fun response =>
          Return match messages response with
                 | Some ms => ms
                 | None => []
                 end)).

Definition getFirstTopicMessage (process_env : gmap string string)
    (https_get : string -> http_outcome) (topicId : string)
  : outcome (option message) :=
  rethrow "Failed to get first message: "
    (bind (queryTopicMessages process_env https_get topicId
             {| limit := Some 1; order := Some "asc";
                sequenceNumber := None; operator := None |})
       (fun response =>
          Return match messages response with
                 | Some (m :: _) => Some m
                 | _ => None
                 end)).

(** The [for (const msg of response.messages)] loop of
    [getMessagesInRange], from the state [(allMessages, lastSequence,
    hasMore)] it starts in to the one it leaves. *)
Fixpoint scan_page (startSequence : Z) (endSequence : option Z)
    (page : list message)
    (allMessages : list message) (lastSequence : Z) (hasMore : bool)
  : list message * Z * bool :=
  match page with
  | [] => (allMessages, lastSequence, hasMore)
  | msg :: rest =>
      if truthy_opt_number endSequence
         && match endSequence with
            | Some e => e <? sequence_number msg
            | None => false
            end
      then (allMessages, lastSequence, false)
      else
        let allMessages :=
          if startSequence <=? sequence_number msg
          then allMessages ++ [msg] else allMessages in
        scan_page startSequence endSequence rest
          allMessages (sequence_number msg) hasMore
  end.

(** The [while (hasMore)] loop, entered with [hasMore = true]. One unit
    of [fuel] pays for one iteration; [None] is a loop still running
    when the fuel is spent. An exception leaves the loop. *)
Fixpoint range_loop (fuel : nat) (process_env : gmap string string)
    (https_get : string -> http_outcome) (topicId : string)
    (startSequence : Z) (endSequence : option Z)
    (allMessages : list message) (lastSequence : Z)
  : option (outcome (list message)) :=
  match fuel with
  | O => None
  | S fuel =>
      match queryTopicMessages process_env https_get topicId
              {| limit := Some 100; order := Some "asc";
                 sequenceNumber := Some lastSequence;
                 operator := Some "gt" |} with
      | Throw e => Some (Throw e)
      | Return response =>
          match messages response with
          | None | Some [] => Some (Return allMessages)
          | Some page =>
              let '(allMessages, lastSequence, hasMore) :=
                scan_page startSequence endSequence page
                  allMessages lastSequence true in
              let hasMore :=
                if (Z.of_nat (length page) <? 100) then false else hasMore in
              if hasMore
              then range_loop fuel process_env https_get topicId
                     startSequence endSequence allMessages lastSequence
              else Some (Return allMessages)
          end
      end
  end.

Definition getMessagesInRange (fuel : nat) (process_env : gmap string string)
    (https_get : string -> http_outcome) (topicId : string)
    (startSequence : Z) (endSequence : option Z)
  : option (outcome (list message)) :=
  option_map (rethrow "Failed to get messages in range: ")
    (range_loop fuel process_env https_get topicId
       startSequence endSequence [] (startSequence - 1)).

(** [accountInfo], as far as the module reads it. *)
Record AccountInfo : Set := { accountMemo : string }.


Definition getAccountMemo
    (execute : Client -> string -> outcome AccountInfo)
    (client : Client) (accountId : string) : outcome string :=
  bind (execute client accountId) (fun accountInfo =>
    Return (accountMemo accountInfo)).



End Hedera.

(** ** The read-side query service *)

Module MirrorNode.
Import Hedera.

Inductive seq_op : Set := Gt | Gte | Lt | Lte.

Definition op_of_string (s : string) : option seq_op :=
  if String.eqb s "gt" then Some Gt
  else if String.eqb s "gte" then Some Gte
  else if String.eqb s "lt" then Some Lt
  else if String.eqb s "lte" then Some Lte
  else None.

(** [admits op n x]: an entry of sequence number [x] passes [op:n]. *)
Definition admits (op : seq_op) (n x : Z) : Prop :=
  match op with
  | Gt => n < x
  | Gte => n <= x
  | Lt => x < n
  | Lte => x <= n
  end.

#[global] Instance admits_dec op n x : Decision (admits op n x).
Proof. destruct op; simpl; apply _. Defined.

Definition parse_number (s : string) : option Z :=
  option_map Z.of_int (NilZero.int_of_string s).

Definition parse_filter (v : string) : option (seq_op * Z) :=
  let '(o, n) := URLSearchParams.split_first ":" v in
  match op_of_string o, parse_number n with
  | Some op, Some k => Some (op, k)
  | _, _ => None
  end.

(** [a] is numbered no later than [b]. *)
Definition le_seq (a b : message) : Prop :=
  sequence_number a <= sequence_number b.

Fixpoint insert_by_sequence (m : message) (l : list message) : list message :=
  match l with
  | [] => [m]
  | x :: r =>
      if sequence_number m <=? sequence_number x then m :: x :: r
      else x :: insert_by_sequence m r
  end.

Fixpoint ascending (l : list message) : list message :=
  match l with
  | [] => []
  | m :: r => insert_by_sequence m (ascending r)
  end.

(** The page size when the request names none. *)
Definition default_limit : nat := 25.

(** Modelled from the spec: the read-side query service, whose
    implementation is not part of the repository. It answers a GET with
    [{messages: [...]}]; the query parameters are [limit], [order]
    ([asc] or [desc]) and [sequencenumber=<op>:<n>] with [<op>] one of
    [gt], [gte], [lt], [lte]. A parameter it cannot read yields a
    document without [messages]. *)
Definition page (log : list message) (params : URLSearchParams.t)
  : option (list message) :=
  let selected :=
    match URLSearchParams.get params "sequencenumber" with
    | None => Some log
    | Some v =>
        match parse_filter v with
        | Some (op, n) =>
            Some (filter (fun m => admits op n (sequence_number m)) log)
        | None => None
        end
    end in
  let count :=
    match URLSearchParams.get params "limit" with
    | None => Some default_limit
    | Some v => option_map Z.to_nat (parse_number v)
    end in
  match selected, count with
  | Some entries, Some k =>
      let sorted := ascending entries in
      let ordered :=
        match URLSearchParams.get params "order" with
        | Some o => if String.eqb o "desc" then rev sorted else sorted
        | None => sorted
        end in
      Some (firstn k ordered)
  | _, _ => None
  end.

Fixpoint strip_prefix (p s : string) : option string :=
  match p with
  | EmptyString => Some s
  | String a p' =>
      match s with
      | EmptyString => None
      | String b s' => if Ascii.eqb a b then strip_prefix p' s' else None
      end
  end.

(** Modelled from the spec: the service at [base], holding the [log] of
    the topic [topic], as the [https.get] the client sees. Any other
    resource is a document without [messages]. *)
Definition serve (base topic : string) (log : list message)
    (url : string) : http_outcome :=
  match strip_prefix (base +:+ "/api/v1/topics/" +:+ topic +:+ "/messages?") url with
  | Some query => Body {| messages := page log (URLSearchParams.parse query) |}
  | None => Body {| messages := None |}
  end.

(** A topic's log: sequence numbers start at 1 and strictly increase in
    the order of consensus. *)
Definition topic_log (log : list message) : Prop :=
  StronglySorted Z.lt (map sequence_number log)
  /\ Forall (fun m => 1 <= sequence_number m) log.

(** The entry the log assigns sequence number [n] to. *)
Definition entry (n : Z) (body : string) : message :=
  {| sequence_number := n; consensus_timestamp := ""; message_body := body |}.

(** The entries of the log numbered after [n]. *)
Definition backlog (log : list message) (n : Z) : list message :=
  filter (fun m => n < sequence_number m) log.

(** A log of [k] entries numbered [first], [first + 1], ... *)
Fixpoint numbered (first : Z) (k : nat) : list message :=
  match k with
  | O => []
  | S k' => entry first "" :: numbered (first + 1) k'
  end.

(** The process environment that names the service. *)
Definition configured (base : string) : gmap string string :=
  {[ "MIRROR_NODE_URL" := base ]}.

End MirrorNode.

(** ** The envelope codec *)

Module EnvelopeCodec.

Definition bytes := list Byte.byte.

(** The operations of the platform's crypto library the codec is built
    from. Key types are abstract: a value of such a type is a well
    formed key. *)
Class Primitives : Type := {
  rsa_private : Type;
  rsa_public : Type;
  rsa_public_of : rsa_private -> rsa_public;
  (** RSA-OAEP(SHA-256) of a session key, under a fresh seed *)
  rsa_oaep_wrap : rsa_public -> bytes -> bytes -> bytes;
  rsa_oaep_unwrap : rsa_private -> bytes -> option bytes;
  (** AES-256 under a session key and an IV *)
  aes_encrypt : bytes -> bytes -> bytes -> bytes;
  aes_decrypt : bytes -> bytes -> bytes -> option bytes;
  (** secp256k1 *)
  ec_scalar : Type;
  ec_point : Type;
  ec_public_of : ec_scalar -> ec_point;
  (** the x-coordinate of the shared point *)
  ecdh : ec_scalar -> ec_point -> bytes;
  sha256 : bytes -> bytes;
  (** AES-256-GCM: ciphertext and authentication tag *)
  gcm_encrypt : bytes -> bytes -> bytes -> bytes * bytes;
  gcm_decrypt : bytes -> bytes -> bytes -> bytes -> option bytes
}.

(** What those operations guarantee. *)
Record Lawful (P : Primitives) : Prop := {
  rsa_unwrap_wrap : forall priv seed key,
    length key = 32%nat ->
    rsa_oaep_unwrap priv (rsa_oaep_wrap (rsa_public_of priv) seed key) = Some key;
  aes_decrypt_encrypt : forall key iv plaintext,
    aes_decrypt key iv (aes_encrypt key iv plaintext) = Some plaintext;
  ecdh_agree : forall a b,
    ecdh a (ec_public_of b) = ecdh b (ec_public_of a);
  gcm_decrypt_encrypt : forall key iv plaintext,
    gcm_decrypt key iv (fst (gcm_encrypt key iv plaintext))
                       (snd (gcm_encrypt key iv plaintext)) = Some plaintext
}.

Section Codec.
Context {P : Primitives}.

Inductive scheme : Set := RSA | ECIES.

Inductive PublicKeyRecord : Type :=
| RsaPublicKey (keyMaterial : rsa_public)
| EciesPublicKey (keyMaterial : ec_point).          (* curve: secp256k1 *)

Inductive PrivateKey : Type :=
| RsaPrivateKey (key : rsa_private)
| EciesPrivateKey (key : ec_scalar).

Record KeyPair : Type := {
  privateKey : PrivateKey;
  publicKey : PublicKeyRecord
}.

Inductive Envelope : Type :=
| RsaEnvelope (encryptedKey iv encryptedData : bytes)
| EciesEnvelope (ephemeralPublicKey : ec_point)
                (iv encryptedData authTag : bytes).  (* curve: secp256k1 *)

Definition public_scheme (k : PublicKeyRecord) : scheme :=
  match k with RsaPublicKey _ => RSA | EciesPublicKey _ => ECIES end.

Definition private_scheme (k : PrivateKey) : scheme :=
  match k with RsaPrivateKey _ => RSA | EciesPrivateKey _ => ECIES end.

Definition envelope_type (e : Envelope) : scheme :=
  match e with RsaEnvelope _ _ _ => RSA | EciesEnvelope _ _ _ _ => ECIES end.

(** Modelled from the spec: [derivePublicKey], the public half that
    belongs to a private key (src/lib/common.js and the key manager
    are not among the sources). *)
Definition derivePublicKey (k : PrivateKey) : PublicKeyRecord :=
  match k with
  | RsaPrivateKey priv => RsaPublicKey (rsa_public_of priv)
  | EciesPrivateKey secret => EciesPublicKey (ec_public_of secret)
  end.

Definition keyPairOf (k : PrivateKey) : KeyPair :=
  {| privateKey := k; publicKey := derivePublicKey k |}.

(** The random choices of one [encrypt] call. *)
Record Entropy : Type := {
  session_key : bytes;          (* the random AES-256 key (RSA) *)
  oaep_seed : bytes;            (* the padding's randomness (RSA) *)
  fresh_iv : bytes;
  ephemeral : ec_scalar         (* the ephemeral private key (ECIES) *)
}.

Inductive DecryptError : Set := SchemeMismatch | AuthenticationFailed.

(** Modelled from the spec: [encrypt(plaintext, recipientPublicKey)] of
    the Envelope Codec (src/lib/common.js is not among the sources).
    It dispatches on the scheme of the recipient's key. RSA: a random
    AES-256 key and IV, the plaintext under AES, the AES key wrapped
    with RSA-OAEP. ECIES: an ephemeral key pair, ECDH with the
    recipient's point, SHA-256 of the shared x-coordinate as the
    AES-256-GCM key, the tag kept apart. *)
Definition encrypt (r : Entropy) (plaintext : bytes)
    (recipientPublicKey : PublicKeyRecord) : Envelope :=
  match recipientPublicKey with
  | RsaPublicKey pub =>
      RsaEnvelope (rsa_oaep_wrap pub (oaep_seed r) (session_key r))
                  (fresh_iv r)
                  (aes_encrypt (session_key r) (fresh_iv r) plaintext)
  | EciesPublicKey point =>
      let key := sha256 (ecdh (ephemeral r) point) in
      let sealed := gcm_encrypt key (fresh_iv r) plaintext in
      EciesEnvelope (ec_public_of (ephemeral r)) (fresh_iv r)
                    (fst sealed) (snd sealed)
  end.

(** Modelled from the spec: [decrypt(envelope, privateKey)] of the
    Envelope Codec. [SchemeMismatch] when the envelope's type is not
    the key's scheme; [AuthenticationFailed] when the unwrap or the
    tag verification fails. *)
Definition decrypt (envelope : Envelope) (keys : KeyPair)
  : bytes + DecryptError :=
  match envelope, privateKey keys with
  | RsaEnvelope encryptedKey iv encryptedData, RsaPrivateKey priv =>
      match rsa_oaep_unwrap priv encryptedKey with
      | Some key =>
          match aes_decrypt key iv encryptedData with
          | Some plaintext => inl plaintext
          | None => inr AuthenticationFailed
          end
      | None => inr AuthenticationFailed
      end
  | EciesEnvelope ephemeralPublicKey iv encryptedData authTag,
    EciesPrivateKey secret =>
      let key := sha256 (ecdh secret ephemeralPublicKey) in
      match gcm_decrypt key iv encryptedData authTag with
      | Some plaintext => inl plaintext
      | None => inr AuthenticationFailed
      end
  | _, _ => inr SchemeMismatch
  end.

End Codec.

(** A small instance of the operations, to run the codec on.  Keys are
    numbers, the shared secret of [a] and [b] has [a * b] bytes, the
    ciphers reverse their input. *)
Definition toy : Primitives := {|
  rsa_private := nat;
  rsa_public := nat;
  rsa_public_of := fun k => k;
  rsa_oaep_wrap := fun _ _ key => rev key;
  rsa_oaep_unwrap := fun _ c => Some (rev c);
  aes_encrypt := fun _ _ p => rev p;
  aes_decrypt := fun _ _ c => Some (rev c);
  ec_scalar := nat;
  ec_point := nat;
  ec_public_of := fun k => k;
  ecdh := fun a b => repeat Byte.x01 (a * b);
  sha256 := fun b => b;
  gcm_encrypt := fun _ _ p => (rev p, [Byte.x00]);
  gcm_decrypt := fun _ _ c tag =>
    match tag with
    | [Byte.x00] => Some (rev c)
    | _ => None
    end
|}.

Definition toy_entropy : @Entropy toy :=
  @Build_Entropy toy (repeat Byte.x2a 32) [] [Byte.x07] 5%nat.

End EnvelopeCodec.

(** ** Predicates the statements below are written with *)

Module Claims.
Import JS Hedera.

(** An environment variable that is not set, or set to the empty string. *)
Definition unset_or_empty (v : option string) : Prop :=
  v = None \/ v = Some EmptyString.

(** The network selector [initializeClient] reads, with its default. *)
Definition network_selector (process_env : gmap string string) : string :=
  match process_env !! "HEDERA_NETWORK" with
  | Some n => if truthy_string n then n else "testnet"
  | None => "testnet"
  end.

Definition capital (c : ascii) : ascii := ascii_of_N (N_of_ascii c - 32).

(** [s] spells the lower-case word [word], each letter in either case. *)
Fixpoint spells_ignoring_case (s word : string) : bool :=
  match s, word with
  | EmptyString, EmptyString => true
  | String c s', String d word' =>
      (Ascii.eqb c d || Ascii.eqb c (capital d))
      && spells_ignoring_case s' word'
  | _, _ => false
  end.

(** The result object of a submission hands the caller the number [n]. *)
Definition reports_number (result : outcome (gmap string jsval)) (n : Z) : Prop :=
  exists obj property,
    result = Return obj /\ obj !! property = Some (JNumber n).

(** A ledger that accepts every submission and numbers it [n]. *)
Definition accepting_ledger (n : Z)
  : Client -> string -> string -> outcome TransactionReceipt :=
  fun _ _ _ => Return {| receipt_status := "SUCCESS";
                         receipt_topicSequenceNumber := n |}.

(** The options [getMessagesInRange] and [getNewMessages] query with. *)
Definition after_options (n : Z) : query_options :=
  {| limit := Some 100; order := Some "asc";
     sequenceNumber := Some n; operator := Some "gt" |}.

(** The entries a query for the entries after [n] is answered with;
    none when the query throws or the answer has no [messages]. *)
Definition entries_after (process_env : gmap string string)
    (https_get : string -> http_outcome) (topicId : string) (n : Z)
  : list message :=
  match queryTopicMessages process_env https_get topicId (after_options n) with
  | Return r => match messages r with Some ms => ms | None => [] end
  | Throw _ => []
  end.

(** A service that holds a log of a hundred entries, numbered 1 to 100,
    and answers every query with all of them, whatever filter the query
    asks for. *)
Definition stuck_service (url : string) : http_outcome :=
  Body {| messages := Some (MirrorNode.numbered 1 100) |}.

End Claims.

(** ** Services the further properties are run against *)

Module Services.
Import JS Hedera.

(** No answer: every request ends in the 'error' event. *)
Definition unreachable (e : string) (url : string) : http_outcome :=
  RequestError e.

(** An answer that is not JSON. *)
Definition garbled (e : string) (url : string) : http_outcome :=
  UnparsableBody e.

(** A JSON object without a [messages] member, as for a topic the
    service does not know. *)
Definition no_such_topic (url : string) : http_outcome :=
  Body {| messages := None |}.

(** The service of [MirrorNode.serve], except that the request for [down]
    fails. *)
Definition flaky (base topic : string) (log : list message) (down : string)
    (url : string) : http_outcome :=
  if String.eqb url down then RequestError "socket hang up"
  else MirrorNode.serve base topic log url.

(** A stand-in for the two parsers of the SDK. Like the SDK it refuses a
    key text too short to hold the 32 bytes of a key in hexadecimal; from
    every other text it builds its object. *)
Definition stand_in_sdk : Sdk :=
  {| AccountId_fromString := fun text => Return {| account_text := text |};
     PrivateKey_fromStringDer := fun text =>
       if (String.length text <? 64)%nat then Throw "BadKeyError"
       else Return {| key_text := text |} |}.

(** An ED25519 private key in DER, in hexadecimal. *)
Definition sample_key : string :=
  "302e020100300506032b657004220420db484b828e64b2d8f12ce3c0a0e93a0b8cce7af1bb8f39c97732394482538e10".

(** [Number.isSafeInteger]: the integers a JavaScript number holds
    exactly. *)
Definition safe_integer (n : Z) : Prop :=
  - 9007199254740991 <= n <= 9007199254740991.

(** The message of the TypeError for a call on a missing client. *)
Definition no_client : string :=
  "Cannot read properties of undefined (reading 'getMirrorNodeUrl')".


(** An entry inside the bounds of a range query; an end of 0 or no end
    is no bound. *)
Definition within (startSequence : Z) (endSequence : option Z)
    (m : message) : Prop :=
  startSequence <= sequence_number m
  /\ match endSequence with
     | Some e => e <> 0 -> sequence_number m <= e
     | None => True
     end.

End Services.

(** * Properties *)

Import JS Hedera Claims.

(** ** The envelope codec *)

Section EnvelopeRoundTrip.
Import EnvelopeCodec.
Context {P : Primitives}.
Hypothesis laws : Lawful P.

Lemma encrypt_keeps_scheme (r : Entropy) (plaintext : bytes) (pub : PublicKeyRecord) :
  envelope_type (encrypt r plaintext pub) = public_scheme pub.
Proof. destruct pub; reflexivity. Qed.

Lemma rsa_round_trip (r : Entropy) (plaintext : bytes) (priv : rsa_private) :
  length (session_key r) = 32%nat ->
  decrypt (encrypt r plaintext (RsaPublicKey (rsa_public_of priv)))
          (keyPairOf (RsaPrivateKey priv)) = inl plaintext.
Proof.
  intros Hlen. cbn.
  rewrite (rsa_unwrap_wrap P laws) by exact Hlen.
  now rewrite (aes_decrypt_encrypt P laws).
Qed.

Lemma ecies_round_trip (r : Entropy) (plaintext : bytes) (secret : ec_scalar) :
  decrypt (encrypt r plaintext (EciesPublicKey (ec_public_of secret)))
          (keyPairOf (EciesPrivateKey secret)) = inl plaintext.
Proof.
  cbn. rewrite (ecdh_agree P laws secret (ephemeral r)).
  now rewrite (gcm_decrypt_encrypt P laws).
Qed.

(** C1: for every plaintext and both schemes, decrypting the envelope
    that [encrypt] makes for the public half of a key pair, with that
    key pair, gives the plaintext back; the envelope is of the scheme
    of the recipient's key. *)
Theorem decrypt_encrypt (r : Entropy) (plaintext : bytes) (k : PrivateKey) :
  length (session_key r) = 32%nat ->
  decrypt (encrypt r plaintext (publicKey (keyPairOf k))) (keyPairOf k)
    = inl plaintext
  /\ envelope_type (encrypt r plaintext (publicKey (keyPairOf k)))
     = private_scheme k.
Proof.
  intros Hlen. split.
  - destruct k as [priv | secret]; simpl publicKey; unfold derivePublicKey.
    + now apply rsa_round_trip.
    + apply ecies_round_trip.
  - rewrite encrypt_keeps_scheme. now destruct k.
Qed.

End EnvelopeRoundTrip.

Lemma toy_lawful : EnvelopeCodec.Lawful EnvelopeCodec.toy.
Proof.
  split; cbn; intros.
  - now rewrite rev_involutive.
  - now rewrite rev_involutive.
  - now rewrite Nat.mul_comm.
  - now rewrite rev_involutive.
Qed.

Lemma decrypt_encrypt_witness :
  let rsa := @EnvelopeCodec.RsaPrivateKey EnvelopeCodec.toy 3%nat in
  let ecies := @EnvelopeCodec.EciesPrivateKey EnvelopeCodec.toy 4%nat in
  let text := [Byte.x68; Byte.x69] in
  (EnvelopeCodec.decrypt
     (EnvelopeCodec.encrypt EnvelopeCodec.toy_entropy text
        (EnvelopeCodec.publicKey (EnvelopeCodec.keyPairOf rsa)))
     (EnvelopeCodec.keyPairOf rsa) = inl text
   /\ EnvelopeCodec.envelope_type
        (EnvelopeCodec.encrypt EnvelopeCodec.toy_entropy text
           (EnvelopeCodec.publicKey (EnvelopeCodec.keyPairOf rsa)))
      = EnvelopeCodec.RSA)
  /\ (EnvelopeCodec.decrypt
        (EnvelopeCodec.encrypt EnvelopeCodec.toy_entropy text
           (EnvelopeCodec.publicKey (EnvelopeCodec.keyPairOf ecies)))
        (EnvelopeCodec.keyPairOf ecies) = inl text
      /\ EnvelopeCodec.envelope_type
           (EnvelopeCodec.encrypt EnvelopeCodec.toy_entropy text
              (EnvelopeCodec.publicKey (EnvelopeCodec.keyPairOf ecies)))
         = EnvelopeCodec.ECIES).
Proof.
  split.
  - apply (decrypt_encrypt toy_lawful EnvelopeCodec.toy_entropy); reflexivity.
  - apply (decrypt_encrypt toy_lawful EnvelopeCodec.toy_entropy
             _ (@EnvelopeCodec.EciesPrivateKey EnvelopeCodec.toy 4%nat));
      reflexivity.
Defined.

(** ** Submitting to a topic *)

(** C6, as the code has it: a submission that the ledger accepts answers
    with [{success: true, topicId}], where [topicId] is the topic that was
    written to; one that it refuses answers with [{success: false, error}],
    the receipt's status. The sequence number of the receipt is in
    neither. *)
Theorem submitMessageToHCS_result
    (execute : Client -> string -> string -> outcome TransactionReceipt)
    (client : Client) (topicId message : string) (receipt : TransactionReceipt) :
  execute client topicId message = Return receipt ->
  submitMessageToHCS execute client topicId message
  = Return (if String.eqb (receipt_status receipt) "SUCCESS"
            then {[ "success" := JBool true; "topicId" := JString topicId ]}
            else {[ "success" := JBool false;
                    "error" := JString (receipt_status receipt) ]}).
Proof.
  intros Hex. unfold submitMessageToHCS, isTransactionSuccessful.
  rewrite Hex. cbn [bind].
  destruct (String.eqb (receipt_status receipt) "SUCCESS"); reflexivity.
Qed.

Lemma submitMessageToHCS_result_witness :
  submitMessageToHCS (accepting_ledger 7) Client_forTestnet "0.0.5" "hello"
  = Return {[ "success" := JBool true; "topicId" := JString "0.0.5" ]}.
Proof.
  exact (submitMessageToHCS_result (accepting_ledger 7) Client_forTestnet
           "0.0.5" "hello"
           {| receipt_status := "SUCCESS"; receipt_topicSequenceNumber := 7 |}
           eq_refl).
Defined.

(** The ledger numbers the entry 7; no property of the result is 7. *)
Lemma submitMessageToHCS_drops_sequence_number :
  ~ reports_number
      (submitMessageToHCS (accepting_ledger 7) Client_forTestnet "0.0.5" "hello")
      7.
Proof.
  intros (obj & property & Hres & Hget).
  cbn in Hres. injection Hres as <-.
  destruct (decide (property = "success")) as [-> | Hs].
  - rewrite lookup_insert_eq in Hget. discriminate.
  - rewrite lookup_insert_ne in Hget by congruence.
    destruct (decide (property = "topicId")) as [-> | Ht].
    + rewrite lookup_insert_eq in Hget. discriminate.
    + rewrite lookup_insert_ne in Hget by congruence.
      rewrite lookup_empty in Hget. discriminate.
Qed.

(** ** The client *)

Lemma truthy_string_spec (s : string) :
  truthy_string s = true <-> s <> EmptyString.
Proof.
  unfold truthy_string. destruct s; cbn; split; intros; congruence.
Qed.

Lemma truthy_string_false (s : string) :
  truthy_string s = false <-> s = EmptyString.
Proof.
  unfold truthy_string. destruct s; cbn; split; intros; congruence.
Qed.

(** C7, as the code has it: with either credential unset or empty,
    [initializeClient] throws having done nothing else: no client was
    constructed, nothing is tried again. With both set, it constructs a
    client and hands the two texts to the SDK, the account id first. When
    the SDK makes an account id and a key of them, the client is given
    that operator and returned. When the SDK refuses one, its error is
    thrown on: the client has been constructed by then, no operator is
    set and nothing is returned. *)
Theorem initializeClient_credentials (sdk : Sdk)
    (process_env : gmap string string) :
  (unset_or_empty (process_env !! "HEDERA_ACCOUNT_ID")
   \/ unset_or_empty (process_env !! "HEDERA_PRIVATE_KEY") ->
   initializeClient sdk process_env
   = ([], Throw "✗ Please set HEDERA_ACCOUNT_ID and HEDERA_PRIVATE_KEY environment variables"))
  /\ (forall id key,
        process_env !! "HEDERA_ACCOUNT_ID" = Some id -> id <> EmptyString ->
        process_env !! "HEDERA_PRIVATE_KEY" = Some key -> key <> EmptyString ->
        exists network,
          (forall account private,
              AccountId_fromString sdk id = Return account ->
              PrivateKey_fromStringDer sdk key = Return private ->
              initializeClient sdk process_env
              = ([ClientConstructed network;
                  OperatorSet account private;
                  ConsoleDebug ("✓ Hedera client initialized ("
                                +:+ network_selector process_env +:+ ")")],
                 Return {| client_network := network;
                           client_operator := Some (account, private) |}))
          /\ (forall e,
                AccountId_fromString sdk id = Throw e ->
                initializeClient sdk process_env
                = ([ClientConstructed network], Throw e))
          /\ (forall account e,
                AccountId_fromString sdk id = Return account ->
                PrivateKey_fromStringDer sdk key = Throw e ->
                initializeClient sdk process_env
                = ([ClientConstructed network], Throw e))).
Proof.
  split.
  - unfold initializeClient, unset_or_empty.
    intros [[-> | ->] | [-> | ->]]; try reflexivity;
      destruct (process_env !! _) as [v|]; try reflexivity;
      cbn; rewrite ?andb_false_r; reflexivity.
  - intros id key Hid Hid' Hkey Hkey'.
    unfold initializeClient. rewrite Hid, Hkey.
    apply truthy_string_spec in Hid', Hkey'. rewrite Hid', Hkey'. cbn [andb].
    fold (network_selector process_env).
    exists (client_network
              (if String.eqb (toLowerCase (network_selector process_env)) "mainnet"
               then Client_forMainnet else Client_forTestnet)).
    split; [| split].
    + intros account private -> ->. reflexivity.
    + intros e ->. reflexivity.
    + intros account e -> ->. reflexivity.
Qed.

Lemma initializeClient_credentials_witness :
  initializeClient Services.stand_in_sdk
    {[ "HEDERA_ACCOUNT_ID" := ""; "HEDERA_PRIVATE_KEY" := Services.sample_key ]}
  = ([], Throw "✗ Please set HEDERA_ACCOUNT_ID and HEDERA_PRIVATE_KEY environment variables")
  /\ exists network,
       initializeClient Services.stand_in_sdk
         {[ "HEDERA_ACCOUNT_ID" := "0.0.1441";
            "HEDERA_PRIVATE_KEY" := Services.sample_key ]}
       = ([ClientConstructed network;
           OperatorSet {| account_text := "0.0.1441" |}
                       {| key_text := Services.sample_key |};
           ConsoleDebug "✓ Hedera client initialized (testnet)"],
          Return {| client_network := network;
                    client_operator :=
                      Some ({| account_text := "0.0.1441" |},
                            {| key_text := Services.sample_key |}) |}).
Proof.
  split.
  - apply (proj1 (initializeClient_credentials Services.stand_in_sdk _)).
    left. right. reflexivity.
  - assert (W := proj2 (initializeClient_credentials Services.stand_in_sdk
                    {[ "HEDERA_ACCOUNT_ID" := "0.0.1441";
                       "HEDERA_PRIVATE_KEY" := Services.sample_key ]})
                  "0.0.1441" Services.sample_key).
    destruct W as (network & W & _); try (reflexivity || discriminate).
    exists network.
    rewrite (W {| account_text := "0.0.1441" |} {| key_text := Services.sample_key |}
               eq_refl eq_refl).
    reflexivity.
Defined.

(** Both variables are set, the key to a text that is no key: a client
    is constructed, and the call throws instead of returning it. *)
Lemma initializeClient_rejected_key :
  let process_env : gmap string string :=
    {[ "HEDERA_ACCOUNT_ID" := "0.0.1441"; "HEDERA_PRIVATE_KEY" := "302e" ]} in
  process_env !! "HEDERA_ACCOUNT_ID" = Some "0.0.1441"
  /\ process_env !! "HEDERA_PRIVATE_KEY" = Some "302e"
  /\ (exists e,
        initializeClient Services.stand_in_sdk process_env
        = ([ClientConstructed Testnet], Throw e))
  /\ ~ (exists client,
          snd (initializeClient Services.stand_in_sdk process_env) = Return client).
Proof.
  cbv zeta. split; [reflexivity |]. split; [reflexivity |]. split.
  - eexists. vm_compute. reflexivity.
  - intros [client Hclient]. vm_compute in Hclient. discriminate.
Qed.

Lemma lower_char_letter (c d : ascii) :
  In d (list_ascii_of_string "mainnet") ->
  Ascii.eqb (lower_char c) d = Ascii.eqb c d || Ascii.eqb c (capital d).
Proof.
  intros Hd. cbn in Hd.
  destruct c as [[] [] [] [] [] [] [] []];
    repeat (destruct Hd as [<- | Hd]; [vm_compute; reflexivity |]);
    destruct Hd.
Qed.

Lemma toLowerCase_spells (word s : string) :
  Forall (fun d => In d (list_ascii_of_string "mainnet"))
         (list_ascii_of_string word) ->
  String.eqb (toLowerCase s) word = spells_ignoring_case s word.
Proof.
  revert s. induction word as [| d word IH]; intros s Hword.
  - destruct s; reflexivity.
  - destruct s as [| c s]; [reflexivity |].
    cbn [list_ascii_of_string] in Hword. inversion Hword; subst.
    cbn [toLowerCase spells_ignoring_case String.eqb].
    rewrite lower_char_letter by assumption.
    rewrite IH by assumption.
    now destruct (Ascii.eqb c d || Ascii.eqb c (capital d)).
Qed.

Lemma mainnet_test (s : string) :
  String.eqb (toLowerCase s) "mainnet" = spells_ignoring_case s "mainnet".
Proof.
  apply toLowerCase_spells. cbn.
  repeat constructor; cbn; tauto.
Qed.

(** C8: once the credentials pass the guard, the client that
    [initializeClient] constructs is a mainnet client exactly when the
    network selector spells "mainnet" in any mix of cases, and a testnet
    client for every other selector; an unset selector stands for
    "testnet". With credentials the SDK accepts, that client is returned.
    The selector never makes the call throw: an error can only be the
    SDK's refusal of a credential. *)
Theorem initializeClient_network (sdk : Sdk) (process_env : gmap string string)
    (id key : string) :
  process_env !! "HEDERA_ACCOUNT_ID" = Some id -> id <> EmptyString ->
  process_env !! "HEDERA_PRIVATE_KEY" = Some key -> key <> EmptyString ->
  exists network,
    (network = Mainnet <->
     spells_ignoring_case (network_selector process_env) "mainnet" = true)
    /\ (network = Testnet <->
        spells_ignoring_case (network_selector process_env) "mainnet" = false)
    /\ (process_env !! "HEDERA_NETWORK" = None ->
        network_selector process_env = "testnet" /\ network = Testnet)
    /\ (exists rest,
          fst (initializeClient sdk process_env)
          = ClientConstructed network :: rest)
    /\ (forall account private,
          AccountId_fromString sdk id = Return account ->
          PrivateKey_fromStringDer sdk key = Return private ->
          exists client,
            snd (initializeClient sdk process_env) = Return client
            /\ client_network client = network)
    /\ (forall e,
          snd (initializeClient sdk process_env) = Throw e ->
          AccountId_fromString sdk id = Throw e
          \/ PrivateKey_fromStringDer sdk key = Throw e).
Proof.
  intros Hid Hid' Hkey Hkey'.
  unfold initializeClient. rewrite Hid, Hkey.
  apply truthy_string_spec in Hid', Hkey'. rewrite Hid', Hkey'. cbn [andb].
  fold (network_selector process_env).
  rewrite mainnet_test.
  exists (if spells_ignoring_case (network_selector process_env) "mainnet"
          then Mainnet else Testnet).
  split; [| split; [| split; [| split; [| split]]]].
  - destruct (spells_ignoring_case _ _); split; congruence.
  - destruct (spells_ignoring_case _ _); split; congruence.
  - intros Hnone. unfold network_selector. rewrite Hnone.
    split; reflexivity.
  - destruct (spells_ignoring_case _ _);
      destruct (AccountId_fromString sdk id) as [account | e];
      try destruct (PrivateKey_fromStringDer sdk key) as [private | e];
      eexists; reflexivity.
  - intros account private -> ->. cbn [snd].
    eexists. split; [reflexivity |].
    now destruct (spells_ignoring_case _ _).
  - intros e.
    destruct (AccountId_fromString sdk id) as [account | e1].
    + destruct (PrivateKey_fromStringDer sdk key) as [private | e2];
        cbn [snd]; intros [= <-]. now right.
    + cbn [snd]. intros [= <-]. now left.
Qed.

Lemma initializeClient_network_witness :
  let with_selector (n : string) : gmap string string :=
    {[ "HEDERA_ACCOUNT_ID" := "0.0.1441"; "HEDERA_PRIVATE_KEY" := Services.sample_key;
       "HEDERA_NETWORK" := n ]} in
  (exists client,
      snd (initializeClient Services.stand_in_sdk (with_selector "MainNet")) = Return client
      /\ client_network client = Mainnet)
  /\ (exists client,
        snd (initializeClient Services.stand_in_sdk (with_selector "previewnet"))
        = Return client
        /\ client_network client = Testnet).
Proof.
  intros with_selector. split.
  - destruct (initializeClient_network Services.stand_in_sdk (with_selector "MainNet")
                "0.0.1441" Services.sample_key)
      as (network & Hmain & _ & _ & _ & Hret & _);
      try (reflexivity || discriminate).
    destruct (Hret {| account_text := "0.0.1441" |} {| key_text := Services.sample_key |}
                eq_refl eq_refl) as (client & Hclient & Hnet).
    exists client. split; [exact Hclient |]. rewrite Hnet.
    apply Hmain. reflexivity.
  - destruct (initializeClient_network Services.stand_in_sdk (with_selector "previewnet")
                "0.0.1441" Services.sample_key)
      as (network & _ & Htest & _ & _ & Hret & _);
      try (reflexivity || discriminate).
    destruct (Hret {| account_text := "0.0.1441" |} {| key_text := Services.sample_key |}
                eq_refl eq_refl) as (client & Hclient & Hnet).
    exists client. split; [exact Hclient |]. rewrite Hnet.
    apply Htest. reflexivity.
Defined.

(** ** The query string and its reading by the service *)

Lemma append_nil (b : string) : EmptyString +:+ b = b.
Proof. reflexivity. Qed.

Lemma append_cons (x : ascii) (a b : string) :
  String x a +:+ b = String x (a +:+ b).
Proof. reflexivity. Qed.

Lemma append_assoc (a b c : string) : (a +:+ b) +:+ c = a +:+ (b +:+ c).
Proof.
  induction a as [| x a IH]; [reflexivity |].
  rewrite !append_cons. now f_equal.
Qed.

Section QueryString.
Import URLSearchParams.

Lemma free_of_app (sep : ascii) (a b : string) :
  free_of sep (a +:+ b) = free_of sep a && free_of sep b.
Proof.
  induction a as [| x a IH]; [reflexivity |].
  rewrite append_cons. cbn [free_of].
  rewrite IH. now rewrite andb_assoc.
Qed.

Lemma encode_byte_free (c : ascii) :
  free_of "&" (encode_byte c) = true /\ free_of "=" (encode_byte c) = true.
Proof. destruct c as [[] [] [] [] [] [] [] []]; split; reflexivity. Qed.

Lemma encode_free (s : string) :
  free_of "&" (encode s) = true /\ free_of "=" (encode s) = true.
Proof.
  induction s as [| c s [IHa IHe]]; [split; reflexivity |].
  cbn [encode]. rewrite !free_of_app, IHa, IHe.
  destruct (encode_byte_free c) as [-> ->]. split; reflexivity.
Qed.

Lemma decode_encode_byte (c : ascii) (r : string) :
  decode (encode_byte c +:+ r) = String c (decode r).
Proof. destruct c as [[] [] [] [] [] [] [] []]; reflexivity. Qed.

Lemma decode_encode (s : string) : decode (encode s) = s.
Proof.
  induction s as [| c s IH]; [reflexivity |].
  cbn [encode]. now rewrite decode_encode_byte, IH.
Qed.

Lemma split_first_app (sep : ascii) (a b : string) :
  free_of sep a = true ->
  split_first sep (a +:+ String sep b) = (a, b).
Proof.
  induction a as [| x a IH]; intros Hfree.
  - rewrite append_nil. cbn. now rewrite Ascii.eqb_refl.
  - rewrite append_cons. cbn [free_of] in Hfree. cbn [split_first].
    apply andb_true_iff in Hfree as [Hx Ha].
    apply negb_true_iff in Hx. rewrite Hx, IH by assumption. reflexivity.
Qed.

Lemma split_on_free (sep : ascii) (a : string) :
  free_of sep a = true -> split_on sep a = [a].
Proof.
  induction a as [| x a IH]; cbn; intros Hfree; [reflexivity |].
  apply andb_true_iff in Hfree as [Hx Ha].
  apply negb_true_iff in Hx. rewrite Hx, IH by assumption. reflexivity.
Qed.

Lemma split_on_app (sep : ascii) (a b : string) :
  free_of sep a = true ->
  split_on sep (a +:+ String sep b) = a :: split_on sep b.
Proof.
  induction a as [| x a IH]; intros Hfree.
  - rewrite append_nil. cbn. now rewrite Ascii.eqb_refl.
  - rewrite append_cons. cbn [free_of] in Hfree. cbn [split_on].
    apply andb_true_iff in Hfree as [Hx Ha].
    apply negb_true_iff in Hx. rewrite Hx, IH by assumption. reflexivity.
Qed.

Lemma serialize_pair_free (p : string * string) :
  free_of "&" (serialize_pair p) = true.
Proof.
  unfold serialize_pair. rewrite !free_of_app.
  destruct (encode_free (fst p)) as [-> _].
  destruct (encode_free (snd p)) as [-> _]. reflexivity.
Qed.

Lemma serialize_pair_nonempty (p : string * string) :
  serialize_pair p <> EmptyString.
Proof.
  unfold serialize_pair. destruct (encode (fst p)); discriminate.
Qed.

Lemma parse_serialize_pair (p : string * string) :
  parse_piece (serialize_pair p) = p.
Proof.
  unfold parse_piece, serialize_pair. destruct p as [k v]. cbn [fst snd].
  change (encode k +:+ "=" +:+ encode v)
    with (encode k +:+ String "=" (encode v)).
  rewrite split_first_app by apply encode_free.
  now rewrite !decode_encode.
Qed.

(** The service reads back exactly the parameters that were appended. *)
Lemma parse_toString (params : t) : parse (toString params) = params.
Proof.
  unfold parse, toString.
  induction params as [| p rest IH]; [reflexivity |].
  cbn [map join_amp]. destruct rest as [| q rest].
  - cbn [map join_amp]. rewrite split_on_free by apply serialize_pair_free.
    rewrite filter_cons_True by apply serialize_pair_nonempty.
    cbn. now rewrite parse_serialize_pair.
  - cbn [map] in IH |- *.
    set (tail := join_amp (serialize_pair q :: map serialize_pair rest)) in *.
    rewrite (append_cons "&" EmptyString tail), append_nil.
    rewrite split_on_app by apply serialize_pair_free.
    rewrite filter_cons_True by apply serialize_pair_nonempty.
    cbn [map]. rewrite parse_serialize_pair. f_equal. exact IH.
Qed.

End QueryString.

Lemma strip_prefix_app (p s : string) :
  MirrorNode.strip_prefix p (p +:+ s) = Some s.
Proof.
  induction p as [| a p IH]; [reflexivity |].
  rewrite append_cons. cbn. now rewrite Ascii.eqb_refl.
Qed.

Lemma parse_number_toString (n : Z) :
  MirrorNode.parse_number (number_toString n) = Some n.
Proof.
  unfold MirrorNode.parse_number, number_toString.
  rewrite NilZero.isi.
  - cbn. now rewrite DecimalZ.of_to.
  - destruct n; cbn; try discriminate.
    intros H. injection H as H. revert H. apply DecimalPos.Unsigned.to_uint_nonnil.
  - destruct n; cbn; try discriminate.
    intros H. injection H as H. revert H. apply DecimalPos.Unsigned.to_uint_nonnil.
Qed.

(** ** What the service answers to the module's queries *)

Section Served.
Import MirrorNode.

Variable process_env : gmap string string.
Variable base : string.
Hypothesis mirror_set : process_env !! "MIRROR_NODE_URL" = Some base.
Hypothesis mirror_nonempty : base <> EmptyString.

Lemma getMirrorNodeUrl_configured :
  getMirrorNodeUrl process_env None = Return base.
Proof.
  unfold getMirrorNodeUrl. rewrite mirror_set.
  apply truthy_string_spec in mirror_nonempty. now rewrite mirror_nonempty.
Qed.

Lemma query_url_configured (topicId : string) (options : query_options) :
  query_url process_env topicId options
  = Return ((base +:+ "/api/v1/topics/" +:+ topicId +:+ "/messages?")
            +:+ URLSearchParams.toString (query_params options)).
Proof.
  unfold query_url. rewrite getMirrorNodeUrl_configured. cbn [bind].
  now rewrite !append_assoc.
Qed.

Lemma queryTopicMessages_served (topicId : string) (log : list message)
    (options : query_options) :
  queryTopicMessages process_env (serve base topicId log) topicId options
  = Return {| messages := page log (query_params options) |}.
Proof.
  unfold queryTopicMessages. rewrite query_url_configured. cbn [bind].
  unfold serve. now rewrite strip_prefix_app, parse_toString.
Qed.

End Served.

Section Pages.
Import MirrorNode.

Lemma query_params_after (n : Z) :
  n <> 0 ->
  query_params (after_options n)
  = [("limit", "100"); ("order", "asc");
     ("sequencenumber", "gt" +:+ String ":" (number_toString n))].
Proof.
  intros Hn. unfold query_params, after_options. cbn.
  apply Z.eqb_neq in Hn. unfold truthy_number. rewrite Hn. reflexivity.
Qed.

Lemma query_params_after_zero :
  query_params (after_options 0) = [("limit", "100"); ("order", "asc")].
Proof. reflexivity. Qed.

Lemma parse_filter_gt (n : Z) :
  parse_filter ("gt" +:+ String ":" (number_toString n)) = Some (Gt, n).
Proof.
  unfold parse_filter.
  rewrite split_first_app by reflexivity.
  now rewrite parse_number_toString.
Qed.

Lemma insert_below (m : message) (l : list message) :
  Forall (fun x => sequence_number m < sequence_number x) l ->
  insert_by_sequence m l = m :: l.
Proof.
  destruct l as [| x r]; [reflexivity |].
  intros H. inversion H; subst. cbn.
  destruct (Z.leb_spec (sequence_number m) (sequence_number x)); [reflexivity | lia].
Qed.

Lemma sorted_cons_inv (m : message) (l : list message) :
  StronglySorted Z.lt (map sequence_number (m :: l)) ->
  StronglySorted Z.lt (map sequence_number l)
  /\ Forall (fun x => sequence_number m < sequence_number x) l.
Proof.
  cbn [map]. intros H. apply StronglySorted_inv in H as [Hs Hall].
  split; [exact Hs |]. exact (proj1 (Forall_map _ _ _) Hall).
Qed.

(** Sorting a log that is already in sequence order changes nothing. *)
Lemma ascending_sorted (l : list message) :
  StronglySorted Z.lt (map sequence_number l) -> ascending l = l.
Proof.
  induction l as [| m l IH]; [reflexivity |].
  intros H. apply sorted_cons_inv in H as [Hs Hall].
  cbn. rewrite IH by exact Hs. now apply insert_below.
Qed.

Lemma sorted_filter (P : message -> Prop) `{!forall m, Decision (P m)}
    (l : list message) :
  StronglySorted Z.lt (map sequence_number l) ->
  StronglySorted Z.lt (map sequence_number (filter P l)).
Proof.
  induction l as [| m l IH]; [intros; constructor |].
  intros Hl. apply sorted_cons_inv in Hl as [Hs Hall].
  rewrite filter_cons. destruct (decide (P m)); [| now apply IH].
  cbn. constructor; [now apply IH |].
  apply Forall_map. rewrite Forall_forall in Hall |- *.
  intros x Hx. apply Hall.
  now apply (proj1 (list_elem_of_filter _ _ _)) in Hx as [_ Hx].
Qed.

Lemma sorted_firstn (k : nat) (l : list message) :
  StronglySorted Z.lt (map sequence_number l) ->
  StronglySorted Z.lt (map sequence_number (firstn k l)).
Proof.
  revert k. induction l as [| m l IH]; intros k H.
  - destruct k; constructor.
  - destruct k; [constructor |].
    apply sorted_cons_inv in H as [Hs Hall].
    cbn. constructor; [now apply IH |].
    apply Forall_map. now apply Forall_take.
Qed.

(** The page that answers a query for the entries after [n], on a log in
    sequence order. *)
Lemma page_after (log : list message) (n : Z) :
  n <> 0 ->
  StronglySorted Z.lt (map sequence_number log) ->
  page log (query_params (after_options n))
  = Some (firstn 100 (filter (fun m => n < sequence_number m) log)).
Proof.
  intros Hn Hsorted. rewrite query_params_after by exact Hn.
  unfold page. cbn [URLSearchParams.get String.eqb Ascii.eqb Bool.eqb].
  rewrite parse_filter_gt.
  change (parse_number "100") with (Some 100).
  cbn [option_map]. change (Z.to_nat 100) with 100%nat.
  rewrite ascending_sorted; [reflexivity |].
  now apply (sorted_filter (fun m => n < sequence_number m)).
Qed.

Lemma page_after_zero (log : list message) :
  StronglySorted Z.lt (map sequence_number log) ->
  page log (query_params (after_options 0)) = Some (firstn 100 log).
Proof.
  intros Hsorted. rewrite query_params_after_zero.
  unfold page. cbn [URLSearchParams.get String.eqb Ascii.eqb Bool.eqb].
  change (parse_number "100") with (Some 100).
  cbn [option_map]. change (Z.to_nat 100) with 100%nat.
  now rewrite ascending_sorted.
Qed.

Lemma filter_all (P : message -> Prop) `{!forall m, Decision (P m)}
    (l : list message) :
  Forall P l -> filter P l = l.
Proof.
  induction 1 as [| m l Hm Hl IH]; [reflexivity |].
  rewrite filter_cons_True by exact Hm. now rewrite IH.
Qed.

Lemma filter_none (P : message -> Prop) `{!forall m, Decision (P m)}
    (l : list message) :
  Forall (fun m => ~ P m) l -> filter P l = [].
Proof.
  induction 1 as [| m l Hm Hl IH]; [reflexivity |].
  rewrite filter_cons_False by exact Hm. exact IH.
Qed.

(** On a topic's log the two cases agree: what is omitted from the wire
    when [n] is 0 is a filter that every entry passes. *)
Lemma page_after_topic_log (log : list message) (n : Z) :
  topic_log log ->
  page log (query_params (after_options n))
  = Some (firstn 100 (filter (fun m => n < sequence_number m) log)).
Proof.
  intros [Hsorted Hpos]. destruct (Z.eq_dec n 0) as [-> | Hn].
  - rewrite page_after_zero by exact Hsorted.
    rewrite (filter_all (fun m => 0 < sequence_number m)); [reflexivity |].
    eapply Forall_impl; [exact Hpos |]. cbn. intros; lia.
  - now apply page_after.
Qed.

End Pages.

(** ** The request of [queryTopicMessages] *)

(** The three appends, side by side. *)
Lemma query_params_parts (options : query_options) :
  query_params options
  = match limit options with
    | Some l => if truthy_number l then [("limit", number_toString l)] else []
    | None => []
    end
    ++ match order options with
       | Some o => if truthy_string o then [("order", o)] else []
       | None => []
       end
    ++ match sequenceNumber options, operator options with
       | Some n, Some op =>
           if truthy_number n && truthy_string op
           then [("sequencenumber", op +:+ ":" +:+ number_toString n)]
           else []
       | _, _ => []
       end.
Proof.
  unfold query_params, URLSearchParams.append, URLSearchParams.empty.
  destruct options as [[l |] [o |] [n |] [op |]];
    cbn [limit order sequenceNumber operator];
    repeat match goal with
           | |- context [truthy_number ?x] => destruct (truthy_number x)
           | |- context [truthy_string ?x] => destruct (truthy_string x)
           end;
    reflexivity.
Qed.

(** C5, as the code has it: the request goes to
    [<mirror>/api/v1/topics/<topicId>/messages?<query>] and what comes
    back is the document served there. A sequence number other than 0,
    given with one of the operators gt, gte, lt, lte, is in the query as
    the parameter sequencenumber = op:n; a limit other than 0 is there as
    limit, a non-empty order as order. *)
Theorem queryTopicMessages_parameters (process_env : gmap string string)
    (https_get : string -> http_outcome) (base topicId : string)
    (options : query_options) :
  process_env !! "MIRROR_NODE_URL" = Some base -> base <> EmptyString ->
  exists query,
    query_url process_env topicId options
    = Return ((base +:+ "/api/v1/topics/" +:+ topicId +:+ "/messages?") +:+ query)
    /\ (forall r,
          https_get ((base +:+ "/api/v1/topics/" +:+ topicId +:+ "/messages?") +:+ query)
          = Body r ->
          queryTopicMessages process_env https_get topicId options = Return r)
    /\ (forall n op,
          sequenceNumber options = Some n -> operator options = Some op ->
          n <> 0 -> In op ["gt"; "gte"; "lt"; "lte"] ->
          In ("sequencenumber", op +:+ ":" +:+ number_toString n)
             (URLSearchParams.parse query))
    /\ (forall l,
          limit options = Some l -> l <> 0 ->
          In ("limit", number_toString l) (URLSearchParams.parse query))
    /\ (forall o,
          order options = Some o -> o <> EmptyString ->
          In ("order", o) (URLSearchParams.parse query)).
Proof.
  intros Hset Hne.
  exists (URLSearchParams.toString (query_params options)).
  split; [now apply query_url_configured |].
  split.
  { intros r Hr. unfold queryTopicMessages.
    rewrite (query_url_configured _ _ Hset Hne). cbn [bind]. now rewrite Hr. }
  rewrite parse_toString, query_params_parts.
  split; [| split].
  - intros n op -> -> Hn Hop.
    apply Z.eqb_neq in Hn. unfold truthy_number at 2. rewrite Hn.
    assert (truthy_string op = true) as ->.
    { cbn in Hop. destruct Hop as [<- | [<- | [<- | [<- | []]]]]; reflexivity. }
    cbn [negb andb]. rewrite !in_app_iff. right. right. now left.
  - intros l -> Hl.
    apply Z.eqb_neq in Hl. unfold truthy_number at 1. rewrite Hl.
    cbn [negb]. rewrite !in_app_iff. left. now left.
  - intros o -> Ho.
    apply truthy_string_spec in Ho. rewrite Ho.
    rewrite !in_app_iff. right. left. now left.
Qed.

Lemma queryTopicMessages_parameters_witness :
  exists query,
    query_url (MirrorNode.configured "https://mirror") "0.0.5" (after_options 18)
    = Return ("https://mirror/api/v1/topics/0.0.5/messages?" +:+ query)
    /\ In ("sequencenumber", "gt:18") (URLSearchParams.parse query)
    /\ In ("limit", "100") (URLSearchParams.parse query)
    /\ In ("order", "asc") (URLSearchParams.parse query).
Proof.
  destruct (queryTopicMessages_parameters
              (MirrorNode.configured "https://mirror")
              (MirrorNode.serve "https://mirror" "0.0.5" [])
              "https://mirror" "0.0.5" (after_options 18))
    as (query & Hurl & _ & Hseq & Hlimit & Horder);
    try (reflexivity || discriminate).
  exists query. split; [exact Hurl |]. split; [| split].
  - apply (Hseq 18 "gt"); try reflexivity; [discriminate | now left].
  - apply (Hlimit 100); [reflexivity | discriminate].
  - apply (Horder "asc"); [reflexivity | discriminate].
Defined.

(** A sequence number of 0 is supplied with the operator gt: the request
    carries no sequencenumber parameter. *)
Lemma queryTopicMessages_omits_zero :
  sequenceNumber (after_options 0) = Some 0
  /\ operator (after_options 0) = Some "gt"
  /\ query_url (MirrorNode.configured "https://mirror") "0.0.5" (after_options 0)
     = Return "https://mirror/api/v1/topics/0.0.5/messages?limit=100&order=asc"
  /\ URLSearchParams.get (URLSearchParams.parse "limit=100&order=asc")
       "sequencenumber" = None.
Proof. repeat split; reflexivity. Qed.

Example query_url_gt_18 :
  query_url (MirrorNode.configured "https://mirror") "0.0.5" (after_options 18)
  = Return "https://mirror/api/v1/topics/0.0.5/messages?limit=100&order=asc&sequencenumber=gt%3A18".
Proof. reflexivity. Qed.

(** ** Polling for new entries *)

Section Polling.
Import MirrorNode.

Variable process_env : gmap string string.
Variable base : string.
Hypothesis mirror_set : process_env !! "MIRROR_NODE_URL" = Some base.
Hypothesis mirror_nonempty : base <> EmptyString.

Lemma getNewMessages_served (topicId : string) (log : list message) (c : Z) :
  getNewMessages process_env (serve base topicId log) topicId c
  = Return match page log (query_params (after_options c)) with
           | Some ms => ms
           | None => []
           end.
Proof.
  unfold getNewMessages. fold (after_options c).
  now rewrite (queryTopicMessages_served _ _ mirror_set mirror_nonempty).
Qed.

(** C2, as the code has it: one call makes one query and returns one
    page, the first hundred entries after the cursor in sequence order.
    It is the whole backlog when the backlog has at most a hundred
    entries. *)
Theorem getNewMessages_one_page (topicId : string) (log : list message) (c : Z) :
  topic_log log ->
  let backlog := filter (fun m => c < sequence_number m) log in
  getNewMessages process_env (serve base topicId log) topicId c
  = Return (firstn 100 backlog)
  /\ StronglySorted Z.lt (map sequence_number (firstn 100 backlog))
  /\ ((length backlog <= 100)%nat ->
      getNewMessages process_env (serve base topicId log) topicId c
      = Return backlog).
Proof.
  intros Hlog backlog.
  assert (getNewMessages process_env (serve base topicId log) topicId c
          = Return (firstn 100 backlog)) as Hpage.
  { rewrite getNewMessages_served. now rewrite page_after_topic_log. }
  split; [exact Hpage |]. split.
  - apply sorted_firstn.
    apply (sorted_filter (fun m => c < sequence_number m)). apply Hlog.
  - intros Hshort. rewrite Hpage. now rewrite firstn_all2.
Qed.

(** C3: with the cursor at 0 and a log of three entries numbered 1, 2
    and 3, one call returns the three of them, in that order. *)
Theorem getNewMessages_three (topicId : string) (m1 m2 m3 : message) :
  sequence_number m1 = 1 -> sequence_number m2 = 2 -> sequence_number m3 = 3 ->
  getNewMessages process_env (serve base topicId [m1; m2; m3]) topicId 0
  = Return [m1; m2; m3].
Proof.
  intros H1 H2 H3. rewrite getNewMessages_served.
  rewrite page_after_zero; [reflexivity |].
  cbn [map]. rewrite H1, H2, H3.
  repeat constructor; lia.
Qed.

End Polling.

Lemma numbered_above (k : nat) (a first : Z) :
  a < first ->
  Forall (fun m => a < sequence_number m) (MirrorNode.numbered first k).
Proof.
  revert first. induction k as [| k IH]; intros first Hlt; cbn; constructor.
  - exact Hlt.
  - apply IH. lia.
Qed.

Lemma numbered_topic_log (first : Z) (k : nat) :
  1 <= first -> MirrorNode.topic_log (MirrorNode.numbered first k).
Proof.
  intros Hfirst. split.
  - revert first Hfirst. induction k as [| k IH]; intros first Hfirst; cbn.
    + constructor.
    + constructor; [apply IH; lia |].
      apply Forall_map. apply numbered_above. lia.
  - eapply Forall_impl; [apply (numbered_above k 0 first); lia |].
    cbn. intros; lia.
Qed.

Lemma getNewMessages_one_page_witness :
  let log := MirrorNode.numbered 1 5 in
  getNewMessages (MirrorNode.configured "https://mirror")
    (MirrorNode.serve "https://mirror" "0.0.5" log) "0.0.5" 2
  = Return (MirrorNode.numbered 3 3).
Proof.
  intros log.
  assert (MirrorNode.topic_log log) as Hlog by (apply numbered_topic_log; lia).
  exact (proj1 (getNewMessages_one_page
                  (MirrorNode.configured "https://mirror") "https://mirror"
                  eq_refl ltac:(discriminate) "0.0.5" log 2 Hlog)).
Defined.

Lemma getNewMessages_three_witness :
  getNewMessages (MirrorNode.configured "https://mirror")
    (MirrorNode.serve "https://mirror" "0.0.5"
       [MirrorNode.entry 1 "a"; MirrorNode.entry 2 "b"; MirrorNode.entry 3 "c"])
    "0.0.5" 0
  = Return [MirrorNode.entry 1 "a"; MirrorNode.entry 2 "b"; MirrorNode.entry 3 "c"].
Proof.
  apply (getNewMessages_three (MirrorNode.configured "https://mirror")
           "https://mirror" eq_refl);
    (reflexivity || discriminate).
Defined.

(** A backlog of 101 entries and the cursor at 0: the call returns a
    hundred of them; the entry numbered 101 is in the log, after the
    cursor, and not in what is returned. *)
Lemma getNewMessages_leaves_backlog :
  let log := MirrorNode.numbered 1 101 in
  exists batch,
    getNewMessages (MirrorNode.configured "https://mirror")
      (MirrorNode.serve "https://mirror" "0.0.5" log) "0.0.5" 0
    = Return batch
    /\ length batch = 100%nat
    /\ In (MirrorNode.entry 101 "") log
    /\ 0 < sequence_number (MirrorNode.entry 101 "")
    /\ ~ In (MirrorNode.entry 101 "") batch.
Proof.
  intros log. eexists. split; [vm_compute; reflexivity |].
  split; [reflexivity |]. split; [vm_compute; tauto |]. split; [reflexivity |].
  intros Hin. apply (in_map sequence_number) in Hin.
  vm_compute in Hin.
  repeat (destruct Hin as [Hin | Hin]; [discriminate |]). exact Hin.
Qed.

(** ** The latest sequence number *)

Section Sorting.
Import MirrorNode.

Lemma insert_In (m x : message) (l : list message) :
  In x (insert_by_sequence m l) <-> x = m \/ In x l.
Proof.
  induction l as [| y r IH]; cbn.
  - intuition congruence.
  - destruct (sequence_number m <=? sequence_number y); cbn.
    + intuition congruence.
    + rewrite IH. intuition congruence.
Qed.

Lemma ascending_In (x : message) (l : list message) :
  In x (ascending l) <-> In x l.
Proof.
  induction l as [| m r IH]; cbn; [tauto |].
  rewrite insert_In, IH. intuition congruence.
Qed.

Lemma insert_ordered (m : message) (l : list message) :
  StronglySorted le_seq l -> StronglySorted le_seq (insert_by_sequence m l).
Proof.
  induction 1 as [| y r Hr IH Hall]; cbn.
  - repeat constructor.
  - destruct (Z.leb_spec (sequence_number m) (sequence_number y)) as [Hle | Hgt].
    + constructor; [now constructor |].
      constructor; [exact Hle |].
      eapply Forall_impl; [exact Hall |].
      unfold le_seq. cbn. intros; lia.
    + constructor; [exact IH |].
      apply Forall_forall. intros x Hx.
      apply list_elem_of_In, insert_In in Hx as [-> | Hx].
      * unfold le_seq. lia.
      * rewrite Forall_forall in Hall. apply Hall. now apply list_elem_of_In.
Qed.

Lemma ascending_ordered (l : list message) :
  StronglySorted le_seq (ascending l).
Proof.
  induction l as [| m r IH]; cbn; [constructor | now apply insert_ordered].
Qed.

Lemma ordered_last (l : list message) (m : message) :
  StronglySorted le_seq (l ++ [m]) ->
  Forall (fun x => sequence_number x <= sequence_number m) (l ++ [m]).
Proof.
  induction l as [| y r IH]; cbn; intros Hs.
  - repeat constructor. lia.
  - apply StronglySorted_inv in Hs as [Hs Hall].
    constructor; [| now apply IH].
    rewrite Forall_forall in Hall. apply (Hall m).
    apply list_elem_of_In, in_or_app. right. now left.
Qed.

(** The head of the descending order is an entry of the log that no
    entry exceeds. *)
Lemma descending_head (log : list message) :
  match rev (ascending log) with
  | [] => log = []
  | m :: _ =>
      In m log /\ Forall (fun x => sequence_number x <= sequence_number m) log
  end.
Proof.
  destruct (rev (ascending log)) as [| m r] eqn:Hrev.
  - apply (f_equal (@rev message)) in Hrev. rewrite rev_involutive in Hrev.
    cbn in Hrev. destruct log as [| x l]; [reflexivity |].
    assert (In x (ascending (x :: l))) as Hin by (apply ascending_In; now left).
    rewrite Hrev in Hin. destruct Hin.
  - apply (f_equal (@rev message)) in Hrev. rewrite rev_involutive in Hrev.
    cbn in Hrev.
    pose proof (ascending_ordered log) as Hs. rewrite Hrev in Hs.
    apply ordered_last in Hs. rewrite <- Hrev in Hs.
    split.
    + apply ascending_In. rewrite Hrev. apply in_or_app. right. now left.
    + apply Forall_forall. intros x Hx. rewrite Forall_forall in Hs.
      apply Hs. apply list_elem_of_In. apply ascending_In.
      now apply list_elem_of_In.
Qed.

Lemma page_latest (log : list message) :
  page log (query_params {| limit := Some 1; order := Some "desc";
                            sequenceNumber := None; operator := None |})
  = Some (firstn 1 (rev (ascending log))).
Proof. reflexivity. Qed.

End Sorting.

Section Latest.
Import MirrorNode.

Variable process_env : gmap string string.
Variable base : string.
Hypothesis mirror_set : process_env !! "MIRROR_NODE_URL" = Some base.
Hypothesis mirror_nonempty : base <> EmptyString.

Lemma getLatestSequenceNumber_served (topicId : string) (log : list message) :
  getLatestSequenceNumber process_env (serve base topicId log) topicId
  = Return match rev (ascending log) with
           | m :: _ => if truthy_number (sequence_number m)
                       then Some (sequence_number m) else None
           | [] => None
           end.
Proof.
  unfold getLatestSequenceNumber.
  rewrite (queryTopicMessages_served _ _ mirror_set mirror_nonempty).
  cbn [bind rethrow messages]. rewrite page_latest.
  now destruct (rev (ascending log)).
Qed.

(** The one request of [getLatestSequenceNumber], and what it makes of the
    answer. *)
Lemma getLatestSequenceNumber_request (https_get : string -> http_outcome)
    (topicId : string) (r : response) :
  https_get ((base +:+ "/api/v1/topics/" +:+ topicId +:+ "/messages?")
             +:+ "limit=1&order=desc") = Body r ->
  getLatestSequenceNumber process_env https_get topicId
  = Return match messages r with
           | Some (m :: _) =>
               if sequence_number m =? 0 then None else Some (sequence_number m)
           | _ => None
           end.
Proof.
  intros Hget. unfold getLatestSequenceNumber, queryTopicMessages.
  rewrite (query_url_configured _ _ mirror_set mirror_nonempty). cbn [bind].
  change (URLSearchParams.toString _) with "limit=1&order=desc".
  rewrite Hget. cbn [bind rethrow]. f_equal.
  destruct (messages r) as [[| m ms] |]; try reflexivity.
  unfold truthy_number. now destruct (sequence_number m =? 0).
Qed.

(** C9: [getLatestSequenceNumber] makes one query, in descending order
    with limit 1. On a log whose sequence numbers are all at least 1 it
    returns null exactly when the log is empty, and otherwise a sequence
    number of the log that none exceeds. The bound is needed: a log whose
    only entry is numbered 0 is not empty and is answered with null as
    well. *)
Theorem getLatestSequenceNumber_latest (topicId : string) :
  (forall https_get r,
      https_get ((base +:+ "/api/v1/topics/" +:+ topicId +:+ "/messages?")
                 +:+ "limit=1&order=desc") = Body r ->
      getLatestSequenceNumber process_env https_get topicId
      = Return match messages r with
               | Some (m :: _) =>
                   if sequence_number m =? 0 then None
                   else Some (sequence_number m)
               | _ => None
               end)
  /\ (forall log,
      Forall (fun m => 1 <= sequence_number m) log ->
      (getLatestSequenceNumber process_env (serve base topicId log) topicId
       = Return None <-> log = [])
      /\ (log <> [] ->
          exists n,
            getLatestSequenceNumber process_env (serve base topicId log) topicId
            = Return (Some n)
            /\ In n (map sequence_number log)
            /\ Forall (fun m => sequence_number m <= n) log))
  /\ (exists log,
        log <> []
        /\ In 0 (map sequence_number log)
        /\ getLatestSequenceNumber process_env (serve base topicId log) topicId
           = Return None).
Proof.
  split; [exact (fun https_get r => getLatestSequenceNumber_request https_get topicId r) |].
  split.
  - intros log Hpos. rewrite getLatestSequenceNumber_served.
    pose proof (descending_head log) as Hhead.
    destruct (rev (ascending log)) as [| m r].
    + subst log. split; [tauto | congruence].
    + destruct Hhead as [Hin Hmax].
      assert (truthy_number (sequence_number m) = true) as ->.
      { rewrite Forall_forall in Hpos.
        apply list_elem_of_In, Hpos in Hin.
        unfold truthy_number. apply negb_true_iff, Z.eqb_neq. lia. }
      split.
      * split; [discriminate |]. intros ->. destruct Hin.
      * intros _. exists (sequence_number m).
        split; [reflexivity |]. split; [now apply in_map | exact Hmax].
  - exists [entry 0 ""]. split; [discriminate |]. split; [now left |].
    now rewrite getLatestSequenceNumber_served.
Qed.

End Latest.

Lemma getLatestSequenceNumber_latest_witness :
  getLatestSequenceNumber (MirrorNode.configured "https://mirror")
    (MirrorNode.serve "https://mirror" "0.0.5" (MirrorNode.numbered 1 3)) "0.0.5"
  = Return (Some 3).
Proof.
  destruct (getLatestSequenceNumber_latest
              (MirrorNode.configured "https://mirror") "https://mirror"
              eq_refl ltac:(discriminate) "0.0.5") as (_ & Hlog & _).
  destruct (Hlog (MirrorNode.numbered 1 3)) as [_ Hsome].
  { apply numbered_topic_log. lia. }
  destruct Hsome as (n & -> & Hin & Hmax); [discriminate |].
  do 2 f_equal.
  cbn in Hin. rewrite Forall_forall in Hmax.
  assert (3 <= n)
    by (apply (Hmax (MirrorNode.entry 3 "")), list_elem_of_In; cbn; tauto).
  lia.
Defined.

(** ** Reading a range *)

Section ScanPage.

Variable startSequence : Z.
Variable e : Z.
Hypothesis end_given : e <> 0.

Lemma scan_page_step (m : message) (rest allMessages : list message)
    (lastSequence : Z) (hasMore : bool) :
  scan_page startSequence (Some e) (m :: rest) allMessages lastSequence hasMore
  = if e <? sequence_number m then (allMessages, lastSequence, false)
    else scan_page startSequence (Some e) rest
           (if startSequence <=? sequence_number m
            then allMessages ++ [m] else allMessages)
           (sequence_number m) hasMore.
Proof.
  cbn [scan_page truthy_opt_number]. unfold truthy_number.
  apply Z.eqb_neq in end_given. rewrite end_given. reflexivity.
Qed.

(** A page wholly inside the range is taken whole; the loop leaves with
    the sequence number of its last entry. *)
Lemma scan_page_inside (p : list message) (m : message)
    (allMessages : list message) (lastSequence : Z) (hasMore : bool) :
  Forall (fun x => startSequence <= sequence_number x <= e) (p ++ [m]) ->
  scan_page startSequence (Some e) (p ++ [m]) allMessages lastSequence hasMore
  = (allMessages ++ p ++ [m], sequence_number m, hasMore).
Proof.
  revert allMessages lastSequence.
  induction p as [| y p IH]; intros allMessages lastSequence Hall.
  - cbn [app] in *. rewrite scan_page_step.
    apply Forall_inv in Hall.
    destruct (Z.ltb_spec e (sequence_number m)); [lia |].
    destruct (Z.leb_spec startSequence (sequence_number m)); [| lia].
    reflexivity.
  - rewrite <- app_comm_cons in *. rewrite scan_page_step.
    pose proof (Forall_inv Hall) as Hy. cbn beta in Hy.
    apply Forall_inv_tail in Hall.
    destruct (Z.ltb_spec e (sequence_number y)); [lia |].
    destruct (Z.leb_spec startSequence (sequence_number y)); [| lia].
    rewrite IH by exact Hall. now rewrite <- app_assoc.
Qed.

(** A page in sequence order that reaches past the end: the entries up
    to the end are taken and the loop is told to stop. *)
Lemma scan_page_past (page allMessages : list message)
    (lastSequence : Z) (hasMore : bool) :
  StronglySorted Z.lt (map sequence_number page) ->
  Forall (fun x => startSequence <= sequence_number x) page ->
  Exists (fun x => e < sequence_number x) page ->
  exists lastSequence',
    scan_page startSequence (Some e) page allMessages lastSequence hasMore
    = (allMessages ++ filter (fun x => sequence_number x <= e) page,
       lastSequence', false).
Proof.
  revert allMessages lastSequence.
  induction page as [| m rest IH]; intros allMessages lastSequence Hs Hfrom Hpast.
  - inversion Hpast.
  - apply sorted_cons_inv in Hs as [Hs Hlater].
    rewrite scan_page_step.
    destruct (Z.ltb_spec e (sequence_number m)) as [Hm | Hm].
    + exists lastSequence.
      rewrite (filter_none (fun x => sequence_number x <= e));
        [now rewrite app_nil_r |].
      constructor; [lia |].
      eapply Forall_impl; [exact Hlater |]. cbn. intros; lia.
    + pose proof (Forall_inv Hfrom) as Hstart. cbn beta in Hstart.
      apply Forall_inv_tail in Hfrom.
      destruct (Z.leb_spec startSequence (sequence_number m)); [| lia].
      destruct (IH (allMessages ++ [m]) (sequence_number m) Hs Hfrom)
        as [last' Hscan].
      { apply Exists_cons in Hpast as [Hpast | Hpast]; [lia | exact Hpast]. }
      exists last'. rewrite Hscan.
      rewrite filter_cons_True by exact Hm. now rewrite <- app_assoc.
Qed.

End ScanPage.

Section SortedLogs.

Lemma sorted_app (a b : list message) :
  StronglySorted Z.lt (map sequence_number (a ++ b)) ->
  StronglySorted Z.lt (map sequence_number a)
  /\ StronglySorted Z.lt (map sequence_number b)
  /\ Forall (fun x => Forall (fun y => sequence_number x < sequence_number y) b) a.
Proof.
  induction a as [| x a IH]; intros Hs.
  - repeat split; [constructor | exact Hs | constructor].
  - rewrite <- app_comm_cons in Hs. apply sorted_cons_inv in Hs as [Hs Hx].
    destruct (IH Hs) as (Ha & Hb & Hab).
    apply Forall_app in Hx as [Hxa Hxb].
    repeat split; [| exact Hb | now constructor].
    cbn [map]. constructor; [exact Ha |]. now apply Forall_map.
Qed.

(** In a log in sequence order, the entries after the one numbered
    [sequence_number m] are those stored behind it. *)
Lemma filter_after_last (p : list message) (m : message) (r : list message) :
  StronglySorted Z.lt (map sequence_number ((p ++ [m]) ++ r)) ->
  filter (fun x => sequence_number m < sequence_number x) ((p ++ [m]) ++ r) = r.
Proof.
  intros Hs. apply sorted_app in Hs as (Hpm & _ & Hcross).
  rewrite filter_app.
  rewrite (filter_none (fun x => sequence_number m < sequence_number x)).
  - cbn [app]. apply (filter_all (fun x => sequence_number m < sequence_number x)).
    apply Forall_app in Hcross as [_ Hm]. now apply Forall_inv in Hm.
  - apply sorted_app in Hpm as (_ & _ & Hp).
    apply Forall_app. split.
    + eapply Forall_impl; [exact Hp |]. cbn. intros x Hx.
      apply Forall_inv in Hx. lia.
    + repeat constructor. lia.
Qed.

Lemma filter_implied (P Q : message -> Prop)
    `{!forall m, Decision (P m)} `{!forall m, Decision (Q m)}
    (l : list message) :
  (forall x, Q x -> P x) -> filter Q (filter P l) = filter Q l.
Proof.
  intros Himp. induction l as [| x l IH]; [reflexivity |].
  rewrite (filter_cons P). destruct (decide (P x)) as [HP | HP].
  - rewrite !filter_cons. now rewrite IH.
  - rewrite IH. rewrite filter_cons_False; [reflexivity |]. auto.
Qed.

Lemma nonempty_snoc {A} (x : A) (l : list A) :
  exists p m, x :: l = p ++ [m].
Proof.
  destruct (exists_last (l:=x :: l)) as (p & m & Heq); [discriminate |].
  now exists p, m.
Qed.

Lemma firstn_short {A} (k : nat) (l : list A) :
  (length (firstn k l) < k)%nat -> firstn k l = l.
Proof.
  intros Hlen. apply firstn_all2.
  rewrite length_firstn in Hlen. lia.
Qed.

Lemma firstn_nil_inv {A} (k : nat) (l : list A) :
  firstn (S k) l = [] -> l = [].
Proof. destruct l; [reflexivity | discriminate]. Qed.

End SortedLogs.

Section Range.
Import MirrorNode.

Variable process_env : gmap string string.
Variable base : string.
Hypothesis mirror_set : process_env !! "MIRROR_NODE_URL" = Some base.
Hypothesis mirror_nonempty : base <> EmptyString.

Variable topicId : string.
Variable log : list message.
Hypothesis log_ok : topic_log log.

Variable startSequence e : Z.
Hypothesis end_given : e <> 0.

Lemma backlog_sorted (n : Z) :
  StronglySorted Z.lt (map sequence_number (backlog log n)).
Proof. apply (sorted_filter (fun m => n < sequence_number m)), log_ok. Qed.

Lemma backlog_later (n : Z) :
  Forall (fun m => n < sequence_number m) (backlog log n).
Proof.
  apply Forall_forall. intros x Hx.
  now apply (proj1 (list_elem_of_filter _ _ _)) in Hx as [Hx _].
Qed.

(** Once the page that ends with [m] is read, what is left of the backlog
    is what lies behind that page. *)
Lemma backlog_next (lastSequence : Z) (p : list message) (m : message) :
  firstn 100 (backlog log lastSequence) = p ++ [m] ->
  backlog log (sequence_number m) = skipn 100 (backlog log lastSequence).
Proof.
  intros Hpage.
  pose proof (firstn_skipn 100 (backlog log lastSequence)) as Hsplit.
  pose proof (backlog_sorted lastSequence) as Hsorted.
  pose proof (backlog_later lastSequence) as Hlater.
  rewrite Hpage in Hsplit.
  unfold backlog at 1.
  rewrite <- (filter_implied (fun y => lastSequence < sequence_number y)
                (fun y => sequence_number m < sequence_number y)).
  - fold (backlog log lastSequence). rewrite <- Hsplit at 1.
    rewrite <- Hsplit in Hsorted. now apply filter_after_last.
  - intros y Hy.
    assert (lastSequence < sequence_number m); [| lia].
    rewrite Forall_forall in Hlater. apply Hlater.
    rewrite <- Hsplit. apply list_elem_of_In.
    apply in_or_app. left. apply in_or_app. right. now left.
Qed.

(** The loop, entered after [lastSequence] with [allMessages] collected,
    adds the entries after [lastSequence] up to the end and returns. *)
Lemma range_loop_reads (fuel : nat) :
  forall (allMessages : list message) (lastSequence : Z),
    startSequence - 1 <= lastSequence ->
    (length (backlog log lastSequence) < fuel)%nat ->
    range_loop fuel process_env (serve base topicId log) topicId
      startSequence (Some e) allMessages lastSequence
    = Some (Return (allMessages
                    ++ filter (fun m => sequence_number m <= e)
                         (backlog log lastSequence))).
Proof.
  induction fuel as [| fuel IH]; intros allMessages lastSequence Hfrom Hfuel;
    [lia |].
  cbn [range_loop]. fold (after_options lastSequence).
  rewrite (queryTopicMessages_served _ _ mirror_set mirror_nonempty).
  cbn [messages]. rewrite page_after_topic_log by exact log_ok.
  fold (backlog log lastSequence).
  pose proof (backlog_sorted lastSequence) as Hsorted.
  pose proof (backlog_later lastSequence) as Hlater.
  pose proof (firstn_skipn 100 (backlog log lastSequence)) as Hsplit.
  destruct (firstn 100 (backlog log lastSequence)) as [| x page'] eqn:Hpage.
  { apply firstn_nil_inv in Hpage. rewrite Hpage. cbn.
    now rewrite app_nil_r. }
  set (page := x :: page') in *.
  assert (Forall (fun m => startSequence <= sequence_number m) page) as Hstart.
  { rewrite <- Hpage. apply Forall_take.
    eapply Forall_impl; [exact Hlater |]. cbn. intros; lia. }
  rewrite <- Hsplit in Hsorted.
  destruct (sorted_app _ _ Hsorted) as (Hpsorted & _ & Hcross).
  change (match Some page with
          | Some [] | None => ?a
          | Some (y :: l) => @?f y l
          end) with (f x page').
  cbn beta. fold page.
  destruct (decide (Forall (fun m => sequence_number m <= e) page)) as [Hin | Hout].
  - (* the page lies inside the range *)
    destruct (nonempty_snoc x page') as (p & m & Hsnoc). fold page in Hsnoc.
    rewrite Hsnoc at 1.
    rewrite scan_page_inside; [| exact end_given |].
    2:{ rewrite <- Hsnoc. apply Forall_forall. intros y Hy.
        rewrite Forall_forall in Hstart, Hin. split; auto. }
    rewrite <- Hsnoc.
    destruct (Z.ltb_spec (Z.of_nat (length page)) 100) as [Hshort | Hfull].
    + (* a short page: the backlog is read *)
      f_equal. f_equal. f_equal.
      assert (backlog log lastSequence = page) as ->.
      { rewrite <- Hpage. symmetry. apply firstn_short.
        rewrite Hpage. lia. }
      symmetry. now apply (filter_all (fun m => sequence_number m <= e)).
    + (* a full page: once more, from its last entry *)
      assert (backlog log (sequence_number m)
              = skipn 100 (backlog log lastSequence)) as Hnext.
      { apply (backlog_next lastSequence p). now rewrite Hpage. }
      rewrite IH.
      * rewrite Hnext. rewrite <- Hsplit at 2. rewrite filter_app.
        rewrite (filter_all (fun m => sequence_number m <= e) page) by exact Hin.
        now rewrite <- app_assoc.
      * assert (startSequence <= sequence_number m); [| lia].
        rewrite Forall_forall in Hstart. apply Hstart.
        rewrite Hsnoc. apply list_elem_of_In, in_or_app. right. now left.
      * rewrite Hnext. rewrite length_skipn.
        assert (length (backlog log lastSequence) >= 100)%nat; [| lia].
        rewrite <- Hsplit, length_app. lia.
  - (* the page reaches past the end *)
    apply not_Forall_Exists in Hout; [| intros y; apply _].
    assert (Exists (fun y => e < sequence_number y) page) as Hpast.
    { eapply Exists_impl; [exact Hout |]. cbn. intros; lia. }
    destruct (scan_page_past startSequence e end_given page allMessages
                lastSequence true Hpsorted Hstart Hpast) as [last' ->].
    assert (filter (fun m => sequence_number m <= e) (backlog log lastSequence)
            = filter (fun m => sequence_number m <= e) page) as ->.
    { rewrite <- Hsplit at 1. rewrite filter_app.
      rewrite (filter_none (fun m => sequence_number m <= e)
                 (skipn 100 (backlog log lastSequence)));
        [now rewrite app_nil_r |].
      apply Exists_exists in Hpast as (y & Hy & Hye).
      rewrite Forall_forall in Hcross. specialize (Hcross y Hy).
      eapply Forall_impl; [exact Hcross |]. cbn. intros; lia. }
    now destruct (Z.of_nat (length page) <? 100).
Qed.

End Range.

Section RangeResult.
Import MirrorNode.

Variable process_env : gmap string string.
Variable base : string.
Hypothesis mirror_set : process_env !! "MIRROR_NODE_URL" = Some base.
Hypothesis mirror_nonempty : base <> EmptyString.

(** C4: on a topic's log and for bounds 1 <= startSequence <=
    endSequence, [getMessagesInRange] returns the entries numbered from
    startSequence to endSequence, both included, in the order of the
    log, which is the order of their sequence numbers. The loop ends
    within one iteration per entry of the log, and one more. *)
Theorem getMessagesInRange_exact (topicId : string) (log : list message)
    (startSequence endSequence : Z) (fuel : nat) :
  topic_log log ->
  1 <= startSequence <= endSequence ->
  (length log < fuel)%nat ->
  let range :=
    filter (fun m => startSequence <= sequence_number m <= endSequence) log in
  getMessagesInRange fuel process_env (serve base topicId log) topicId
    startSequence (Some endSequence)
  = Some (Return range)
  /\ StronglySorted Z.lt (map sequence_number range).
Proof.
  intros Hlog Hbounds Hfuel range. split.
  - unfold getMessagesInRange.
    rewrite (range_loop_reads process_env base mirror_set mirror_nonempty
               topicId log Hlog startSequence endSequence); try lia.
    + cbn [option_map rethrow app]. do 2 f_equal.
      unfold backlog, range. rewrite list_filter_filter.
      apply list_filter_iff. intros m. lia.
    + unfold backlog. pose proof (length_filter
        (fun m => startSequence - 1 < sequence_number m) log). lia.
  - apply (sorted_filter
             (fun m => startSequence <= sequence_number m <= endSequence)).
    apply Hlog.
Qed.

End RangeResult.

Lemma getMessagesInRange_exact_witness :
  getMessagesInRange 6 (MirrorNode.configured "https://mirror")
    (MirrorNode.serve "https://mirror" "0.0.5" (MirrorNode.numbered 1 5))
    "0.0.5" 2 (Some 4)
  = Some (Return (MirrorNode.numbered 2 3)).
Proof.
  apply (getMessagesInRange_exact (MirrorNode.configured "https://mirror")
           "https://mirror" eq_refl ltac:(discriminate)
           "0.0.5" (MirrorNode.numbered 1 5) 2 4 6).
  - apply numbered_topic_log. lia.
  - lia.
  - cbn. lia.
Defined.

(** Two full pages and a third that passes the end. *)
Example getMessagesInRange_paged :
  option_map (fun r => match r with
                       | Return ms => map sequence_number ms
                       | Throw _ => []
                       end)
    (getMessagesInRange 3 (MirrorNode.configured "https://mirror")
       (MirrorNode.serve "https://mirror" "0.0.5" (MirrorNode.numbered 1 350))
       "0.0.5" 99 (Some 303))
  = Some (map sequence_number (MirrorNode.numbered 99 205)).
Proof. vm_compute. reflexivity. Qed.

(** Two iterations are not enough for it. *)
Example getMessagesInRange_paged_short :
  getMessagesInRange 2 (MirrorNode.configured "https://mirror")
    (MirrorNode.serve "https://mirror" "0.0.5" (MirrorNode.numbered 1 350))
    "0.0.5" 99 (Some 303)
  = None.
Proof. vm_compute. reflexivity. Qed.

(** ** Termination of the range loop *)

Section Termination.

Variable process_env : gmap string string.
Variable https_get : string -> http_outcome.
Variable topicId : string.
Variable startSequence : Z.
Variable endSequence : option Z.

(** Where [scan_page] leaves [lastSequence]: untouched, or at the number
    of an entry of the page; and it never sets [hasMore]. *)
Lemma scan_page_last (page : list message) :
  forall allMessages lastSequence hasMore all' last' more',
    scan_page startSequence endSequence page allMessages lastSequence hasMore
    = (all', last', more') ->
    (more' = true -> hasMore = true)
    /\ (last' = lastSequence \/ exists m, In m page /\ last' = sequence_number m)
    /\ (more' = true -> page <> [] ->
        exists m, In m page /\ last' = sequence_number m).
Proof.
  induction page as [| m rest IH];
    intros allMessages lastSequence hasMore all' last' more' Hscan.
  - cbn in Hscan. injection Hscan as <- <- <-.
    repeat split; [tauto | now left | congruence].
  - cbn [scan_page] in Hscan.
    destruct (truthy_opt_number endSequence
              && match endSequence with
                 | Some e => e <? sequence_number m
                 | None => false
                 end).
    + injection Hscan as <- <- <-.
      repeat split; [discriminate | now left | discriminate].
    + apply IH in Hscan as (Hmore & Hlast & Hin).
      split; [exact Hmore |]. split.
      * right. destruct Hlast as [-> | (x & Hx & ->)].
        -- exists m. split; [now left | reflexivity].
        -- exists x. split; [now right | reflexivity].
      * intros Hm _. destruct Hlast as [-> | (x & Hx & ->)].
        -- exists m. split; [now left | reflexivity].
        -- exists x. split; [now right | reflexivity].
Qed.

Variable bound : Z.

(** Every answer honours the bound it was asked for, and the log ends. *)
Hypothesis honoured : forall n m,
  In m (entries_after process_env https_get topicId n) ->
  n < sequence_number m <= bound.

(** Each iteration that goes on has moved [lastSequence] up, towards
    [bound]. *)
Lemma range_loop_returns (fuel : nat) :
  forall allMessages lastSequence,
    bound - lastSequence < Z.of_nat fuel ->
    (0 < fuel)%nat ->
    exists result,
      range_loop fuel process_env https_get topicId startSequence endSequence
        allMessages lastSequence = Some result.
Proof.
  induction fuel as [| fuel IH]; intros allMessages lastSequence Hfuel Hpos;
    [lia |].
  cbn [range_loop]. fold (after_options lastSequence).
  pose proof (honoured lastSequence) as Hpage. unfold entries_after in Hpage.
  destruct (queryTopicMessages process_env https_get topicId
              (after_options lastSequence)) as [response | err];
    [| eexists; reflexivity].
  destruct (messages response) as [[| x page'] |]; try (eexists; reflexivity).
  destruct (scan_page startSequence endSequence (x :: page')
              allMessages lastSequence true)
    as [[all' last'] more'] eqn:Hscan.
  destruct (Z.of_nat (length (x :: page')) <? 100); [eexists; reflexivity |].
  destruct more'; [| eexists; reflexivity].
  apply scan_page_last in Hscan as (_ & _ & Hin).
  destruct Hin as (m & Hm & ->); [reflexivity | discriminate |].
  apply Hpage in Hm.
  apply IH; lia.
Qed.

End Termination.

Lemma scan_page_unbounded (startSequence : Z) (page : list message) :
  forall allMessages lastSequence hasMore,
    Forall (fun m => startSequence <= sequence_number m) page ->
    exists last',
      scan_page startSequence None page allMessages lastSequence hasMore
      = (allMessages ++ page, last', hasMore).
Proof.
  induction page as [| m rest IH]; intros allMessages lastSequence hasMore Hall.
  - exists lastSequence. cbn. now rewrite app_nil_r.
  - pose proof (Forall_inv Hall) as Hm. cbn beta in Hm.
    apply Forall_inv_tail in Hall.
    cbn [scan_page truthy_opt_number andb].
    destruct (Z.leb_spec startSequence (sequence_number m)); [| lia].
    destruct (IH (allMessages ++ [m]) (sequence_number m) hasMore Hall)
      as [last' ->].
    exists last'. now rewrite <- app_assoc.
Qed.

Lemma range_loop_stuck (fuel : nat) :
  forall allMessages lastSequence,
    range_loop fuel (MirrorNode.configured "https://mirror") stuck_service
      "0.0.5" 1 None allMessages lastSequence = None.
Proof.
  induction fuel as [| fuel IH]; intros allMessages lastSequence; [reflexivity |].
  cbn [range_loop].
  assert (queryTopicMessages (MirrorNode.configured "https://mirror")
            stuck_service "0.0.5"
            {| limit := Some 100; order := Some "asc";
               sequenceNumber := Some lastSequence; operator := Some "gt" |}
          = Return {| messages := Some (MirrorNode.numbered 1 100) |}) as ->.
  { unfold queryTopicMessages.
    rewrite (query_url_configured (MirrorNode.configured "https://mirror")
               "https://mirror" eq_refl ltac:(discriminate)).
    reflexivity. }
  cbn [messages].
  destruct (scan_page_unbounded 1 (MirrorNode.numbered 1 100)
              allMessages lastSequence true) as [last' Hscan].
  { eapply Forall_impl; [apply (numbered_above 100 0 1); lia |].
    cbn. intros; lia. }
  change (MirrorNode.numbered 1 100)
    with (MirrorNode.entry 1 "" :: MirrorNode.numbered (1 + 1) 99) in Hscan |- *.
  cbv iota beta. rewrite Hscan.
  change (Z.of_nat (length (MirrorNode.entry 1 "" :: MirrorNode.numbered (1 + 1) 99)) <? 100)
    with false.
  cbv iota. apply IH.
Qed.

(** C10: when every answer to a query for the entries after a bound holds
    only entries numbered strictly after that bound, and the sequence
    numbers of the log have an upper bound, the loop of
    [getMessagesInRange] ends: with enough fuel the call returns or
    throws. A service that holds a hundred entries and ignores the filter
    keeps the loop running whatever the fuel. *)
Theorem getMessagesInRange_terminates :
  (forall process_env https_get topicId startSequence endSequence bound,
      (forall n m,
          In m (entries_after process_env https_get topicId n) ->
          n < sequence_number m <= bound) ->
      exists fuel result,
        getMessagesInRange fuel process_env https_get topicId
          startSequence endSequence = Some result)
  /\ (forall fuel,
        getMessagesInRange fuel (MirrorNode.configured "https://mirror")
          stuck_service "0.0.5" 1 None = None).
Proof.
  split.
  - intros process_env https_get topicId startSequence endSequence bound Hhon.
    exists (S (Z.to_nat (bound - (startSequence - 1)))).
    destruct (range_loop_returns process_env https_get topicId startSequence
                endSequence bound Hhon
                (S (Z.to_nat (bound - (startSequence - 1))))
                [] (startSequence - 1)) as [result Hres]; [lia | lia |].
    unfold getMessagesInRange. rewrite Hres. eexists. reflexivity.
  - intros fuel. unfold getMessagesInRange. now rewrite range_loop_stuck.
Qed.

Lemma getMessagesInRange_terminates_witness :
  exists fuel result,
    getMessagesInRange fuel (MirrorNode.configured "https://mirror")
      (MirrorNode.serve "https://mirror" "0.0.5" (MirrorNode.numbered 1 3))
      "0.0.5" 1 (Some 2)
    = Some result.
Proof.
  apply (proj1 getMessagesInRange_terminates
           (MirrorNode.configured "https://mirror")
           (MirrorNode.serve "https://mirror" "0.0.5" (MirrorNode.numbered 1 3))
           "0.0.5" 1 (Some 2) 3).
  intros n m Hin. unfold entries_after in Hin.
  rewrite (queryTopicMessages_served (MirrorNode.configured "https://mirror")
             "https://mirror" eq_refl ltac:(discriminate)) in Hin.
  cbn [messages] in Hin.
  rewrite page_after_topic_log in Hin by (apply numbered_topic_log; lia).
  apply list_elem_of_In in Hin.
  apply (subseteq_take 100) in Hin.
  apply (proj1 (list_elem_of_filter _ _ _)) in Hin as [Hn Hm].
  split; [exact Hn |].
  apply list_elem_of_In in Hm. cbn in Hm.
  destruct Hm as [<- | [<- | [<- | []]]]; cbn; lia.
Defined.

(** ** The mirror's address *)

(** [queryTopicMessages] asks [getMirrorNodeUrl] without a client: with
    MIRROR_NODE_URL unset there is no client to ask, and every query
    throws before a request is made. *)
Example queries_need_mirror_url :
  getNewMessages ∅
    (MirrorNode.serve "https://testnet.mirrornode.hedera.com" "0.0.5"
       (MirrorNode.numbered 1 3)) "0.0.5" 0
  = Throw "Failed to get new messages: Cannot read properties of undefined (reading 'getMirrorNodeUrl')".
Proof. reflexivity. Qed.

(** * Further properties of the access layer *)

Import Services.

(** ** Failures of the readers *)

Lemma queryTopicMessages_no_url (process_env : gmap string string)
    (https_get : string -> http_outcome) (topicId : string)
    (options : query_options) :
  unset_or_empty (process_env !! "MIRROR_NODE_URL") ->
  queryTopicMessages process_env https_get topicId options = Throw no_client.
Proof.
  unfold queryTopicMessages, query_url, getMirrorNodeUrl.
  intros [-> | ->]; reflexivity.
Qed.

(** X1: with MIRROR_NODE_URL unset or empty, each of the four readers
    throws the TypeError of the missing client under its own prefix,
    whatever the service would have answered; [getMessagesInRange] does so
    in its first iteration. *)
Theorem readers_need_mirror_url (process_env : gmap string string)
    (https_get : string -> http_outcome) (topicId : string) :
  unset_or_empty (process_env !! "MIRROR_NODE_URL") ->
  (forall c,
      getNewMessages process_env https_get topicId c
      = Throw ("Failed to get new messages: " +:+ no_client))
  /\ getLatestSequenceNumber process_env https_get topicId
     = Throw ("Failed to get latest sequence number: " +:+ no_client)
  /\ getFirstTopicMessage process_env https_get topicId
     = Throw ("Failed to get first message: " +:+ no_client)
  /\ (forall fuel startSequence endSequence,
         getMessagesInRange (S fuel) process_env https_get topicId
           startSequence endSequence
         = Some (Throw ("Failed to get messages in range: " +:+ no_client))).
Proof.
  intros Hunset.
  unfold getNewMessages, getLatestSequenceNumber, getFirstTopicMessage,
    getMessagesInRange.
  repeat split; intros; cbn [range_loop];
    rewrite queryTopicMessages_no_url by exact Hunset; reflexivity.
Qed.

Lemma readers_need_mirror_url_witness :
  getNewMessages {[ "MIRROR_NODE_URL" := "" ]}
    (MirrorNode.serve "https://mirror" "0.0.5" (MirrorNode.numbered 1 3))
    "0.0.5" 0
  = Throw ("Failed to get new messages: " +:+ no_client)
  /\ getMessagesInRange 1 ∅
       (MirrorNode.serve "https://mirror" "0.0.5" (MirrorNode.numbered 1 3))
       "0.0.5" 1 (Some 3)
     = Some (Throw ("Failed to get messages in range: " +:+ no_client)).
Proof.
  split.
  - apply (readers_need_mirror_url {[ "MIRROR_NODE_URL" := "" ]}).
    right. reflexivity.
  - apply (readers_need_mirror_url ∅).
    left. reflexivity.
Defined.

Section ReaderFailures.

Variable process_env : gmap string string.
Variable base : string.
Hypothesis mirror_set : process_env !! "MIRROR_NODE_URL" = Some base.
Hypothesis mirror_nonempty : base <> EmptyString.

Lemma queryTopicMessages_unreachable (e topicId : string)
    (options : query_options) :
  queryTopicMessages process_env (unreachable e) topicId options
  = Throw ("Mirror Node request failed: " +:+ e).
Proof.
  unfold queryTopicMessages.
  now rewrite (query_url_configured _ _ mirror_set mirror_nonempty).
Qed.

Lemma queryTopicMessages_garbled (e topicId : string)
    (options : query_options) :
  queryTopicMessages process_env (garbled e) topicId options
  = Throw ("Failed to parse Mirror Node response: " +:+ e).
Proof.
  unfold queryTopicMessages.
  now rewrite (query_url_configured _ _ mirror_set mirror_nonempty).
Qed.

Lemma queryTopicMessages_no_such_topic (topicId : string)
    (options : query_options) :
  queryTopicMessages process_env no_such_topic topicId options
  = Return {| messages := None |}.
Proof.
  unfold queryTopicMessages.
  now rewrite (query_url_configured _ _ mirror_set mirror_nonempty).
Qed.

(** X2: a request that fails, or an answer that is not JSON, is never
    read as an empty topic: each reader throws, its own prefix in front of
    the prefix of [queryTopicMessages] and the cause. *)
Theorem readers_surface_transport_errors (e topicId : string) :
  (forall c,
      getNewMessages process_env (unreachable e) topicId c
      = Throw ("Failed to get new messages: "
               +:+ "Mirror Node request failed: " +:+ e)
      /\ getNewMessages process_env (garbled e) topicId c
         = Throw ("Failed to get new messages: "
                  +:+ "Failed to parse Mirror Node response: " +:+ e))
  /\ (getLatestSequenceNumber process_env (unreachable e) topicId
      = Throw ("Failed to get latest sequence number: "
               +:+ "Mirror Node request failed: " +:+ e)
      /\ getLatestSequenceNumber process_env (garbled e) topicId
         = Throw ("Failed to get latest sequence number: "
                  +:+ "Failed to parse Mirror Node response: " +:+ e))
  /\ (getFirstTopicMessage process_env (unreachable e) topicId
      = Throw ("Failed to get first message: "
               +:+ "Mirror Node request failed: " +:+ e)
      /\ getFirstTopicMessage process_env (garbled e) topicId
         = Throw ("Failed to get first message: "
                  +:+ "Failed to parse Mirror Node response: " +:+ e))
  /\ (forall fuel startSequence endSequence,
         getMessagesInRange (S fuel) process_env (unreachable e) topicId
           startSequence endSequence
         = Some (Throw ("Failed to get messages in range: "
                        +:+ "Mirror Node request failed: " +:+ e))
         /\ getMessagesInRange (S fuel) process_env (garbled e) topicId
              startSequence endSequence
            = Some (Throw ("Failed to get messages in range: "
                           +:+ "Failed to parse Mirror Node response: " +:+ e))).
Proof.
  unfold getNewMessages, getLatestSequenceNumber, getFirstTopicMessage,
    getMessagesInRange.
  repeat split; intros; cbn [range_loop];
    rewrite ?queryTopicMessages_unreachable, ?queryTopicMessages_garbled;
    reflexivity.
Qed.

(** X3: a JSON answer that is an object without a [messages] member is
    read by every reader as an empty topic: no entries, no latest number,
    no first message, an empty range after a single request. Nothing is
    thrown. (The answer [null] is another matter: it has no members to
    read.) *)
Theorem readers_take_missing_messages_as_empty (topicId : string) :
  (forall c, getNewMessages process_env no_such_topic topicId c = Return [])
  /\ getLatestSequenceNumber process_env no_such_topic topicId = Return None
  /\ getFirstTopicMessage process_env no_such_topic topicId = Return None
  /\ (forall fuel startSequence endSequence,
         getMessagesInRange (S fuel) process_env no_such_topic topicId
           startSequence endSequence
         = Some (Return [])).
Proof.
  unfold getNewMessages, getLatestSequenceNumber, getFirstTopicMessage,
    getMessagesInRange.
  repeat split; intros; cbn [range_loop];
    rewrite queryTopicMessages_no_such_topic; reflexivity.
Qed.

End ReaderFailures.

Lemma readers_surface_transport_errors_witness :
  getNewMessages (MirrorNode.configured "https://mirror")
    (unreachable "ECONNREFUSED") "0.0.5" 7
  = Throw "Failed to get new messages: Mirror Node request failed: ECONNREFUSED".
Proof.
  exact (proj1 (proj1 (readers_surface_transport_errors
                         (MirrorNode.configured "https://mirror")
                         "https://mirror" eq_refl ltac:(discriminate)
                         "ECONNREFUSED" "0.0.5") 7)).
Defined.

Lemma readers_take_missing_messages_as_empty_witness :
  getMessagesInRange 1 (MirrorNode.configured "https://mirror")
    no_such_topic "0.0.5" 1 None
  = Some (Return []).
Proof.
  exact (proj2 (proj2 (proj2 (readers_take_missing_messages_as_empty
                         (MirrorNode.configured "https://mirror")
                         "https://mirror" eq_refl ltac:(discriminate)
                         "0.0.5"))) 0%nat 1 None).
Defined.

(** ** The first message, and polling from the latest *)

Lemma page_first (log : list message) :
  MirrorNode.page log
    (query_params {| limit := Some 1; order := Some "asc";
                     sequenceNumber := None; operator := None |})
  = Some (firstn 1 (MirrorNode.ascending log)).
Proof. reflexivity. Qed.

(** The head of the ascending order is an entry of the log that exceeds
    none. *)
Lemma ascending_head (log : list message) :
  match MirrorNode.ascending log with
  | [] => log = []
  | m :: _ =>
      In m log /\ Forall (fun x => sequence_number m <= sequence_number x) log
  end.
Proof.
  pose proof (ascending_ordered log) as Hs.
  destruct (MirrorNode.ascending log) as [| m r] eqn:Hasc.
  - destruct log as [| x l]; [reflexivity |].
    assert (In x (MirrorNode.ascending (x :: l))) as Hin
      by (apply ascending_In; now left).
    rewrite Hasc in Hin. destruct Hin.
  - split.
    + apply ascending_In. rewrite Hasc. now left.
    + apply StronglySorted_inv in Hs as [_ Hall].
      apply Forall_forall. intros x Hx.
      apply list_elem_of_In, ascending_In in Hx. rewrite Hasc in Hx.
      destruct Hx as [<- | Hx]; [lia |].
      rewrite Forall_forall in Hall. apply Hall. now apply list_elem_of_In.
Qed.

Section FirstAndLatest.
Import MirrorNode.

Variable process_env : gmap string string.
Variable base : string.
Hypothesis mirror_set : process_env !! "MIRROR_NODE_URL" = Some base.
Hypothesis mirror_nonempty : base <> EmptyString.

Lemma getFirstTopicMessage_served (topicId : string) (log : list message) :
  getFirstTopicMessage process_env (serve base topicId log) topicId
  = Return match ascending log with
           | m :: _ => Some m
           | [] => None
           end.
Proof.
  unfold getFirstTopicMessage.
  rewrite (queryTopicMessages_served _ _ mirror_set mirror_nonempty).
  cbn [bind rethrow messages]. rewrite page_first.
  now destruct (ascending log).
Qed.

(** X4: [getFirstTopicMessage] returns null exactly when the log is
    empty, and otherwise an entry of the log that no entry precedes; no
    bound on the sequence numbers is needed, an entry numbered 0 is
    returned like any other. On a log in sequence order it is the entry
    stored first. *)
Theorem getFirstTopicMessage_first (topicId : string) (log : list message) :
  (getFirstTopicMessage process_env (serve base topicId log) topicId
   = Return None <-> log = [])
  /\ (log <> [] ->
      exists m,
        getFirstTopicMessage process_env (serve base topicId log) topicId
        = Return (Some m)
        /\ In m log
        /\ Forall (fun x => sequence_number m <= sequence_number x) log)
  /\ (forall m rest,
        log = m :: rest ->
        StronglySorted Z.lt (map sequence_number log) ->
        getFirstTopicMessage process_env (serve base topicId log) topicId
        = Return (Some m)).
Proof.
  rewrite getFirstTopicMessage_served.
  pose proof (ascending_head log) as Hhead.
  split; [| split].
  - destruct (ascending log) as [| m r].
    + subst log. tauto.
    + destruct Hhead as [Hin _]. split; [discriminate |].
      intros ->. destruct Hin.
  - intros Hne. destruct (ascending log) as [| m r]; [congruence |].
    exists m. destruct Hhead as [Hin Hmin]. auto.
  - intros m rest -> Hsorted. now rewrite ascending_sorted.
Qed.

(** X5: a listener that first asks for the latest sequence number of a
    topic and then polls from it is handed the entries appended since,
    the first hundred of them, and none of the older ones. *)
Theorem poll_from_latest (topicId : string) (old new : list message) :
  topic_log (old ++ new) ->
  old <> [] ->
  exists n,
    getLatestSequenceNumber process_env (serve base topicId old) topicId
    = Return (Some n)
    /\ getNewMessages process_env (serve base topicId (old ++ new)) topicId n
       = Return (firstn 100 new).
Proof.
  intros Hlog Hold.
  destruct (exists_last Hold) as (p & m & ->).
  destruct Hlog as [Hsorted Hpos].
  pose proof (sorted_app _ _ Hsorted) as (Hold_sorted & _ & _).
  exists (sequence_number m). split.
  - rewrite (getLatestSequenceNumber_served _ _ mirror_set mirror_nonempty).
    rewrite ascending_sorted by exact Hold_sorted.
    rewrite rev_unit.
    assert (1 <= sequence_number m) as Hm.
    { rewrite Forall_forall in Hpos. apply Hpos.
      apply list_elem_of_In, in_or_app. left. apply in_or_app. right. now left. }
    unfold truthy_number.
    destruct (Z.eqb_spec (sequence_number m) 0); [lia | reflexivity].
  - rewrite (getNewMessages_served _ _ mirror_set mirror_nonempty).
    rewrite page_after_topic_log by (split; assumption).
    now rewrite filter_after_last.
Qed.

(** X6: polling again from the number of the last entry of a batch gives
    the batch that follows it in the backlog: the two batches together
    are the first two hundred entries after the first cursor, with no
    entry twice and none left out; and the cursor has moved up. *)
Theorem successive_polls (topicId : string) (log : list message) (c : Z)
    (p : list message) (m : message) :
  topic_log log ->
  getNewMessages process_env (serve base topicId log) topicId c
  = Return (p ++ [m]) ->
  c < sequence_number m
  /\ exists batch,
       getNewMessages process_env (serve base topicId log) topicId
         (sequence_number m)
       = Return batch
       /\ (p ++ [m]) ++ batch = firstn 200 (backlog log c).
Proof.
  intros Hlog Hfirst.
  rewrite (getNewMessages_served _ _ mirror_set mirror_nonempty) in Hfirst.
  rewrite page_after_topic_log in Hfirst by exact Hlog.
  injection Hfirst as Hfirst. fold (backlog log c) in Hfirst.
  split.
  - pose proof (backlog_later log c) as Hlater.
    rewrite Forall_forall in Hlater. apply Hlater.
    apply (subseteq_take 100). rewrite Hfirst.
    apply list_elem_of_In, in_or_app. right. now left.
  - exists (firstn 100 (skipn 100 (backlog log c))). split.
    + rewrite (getNewMessages_served _ _ mirror_set mirror_nonempty).
      rewrite page_after_topic_log by exact Hlog.
      fold (backlog log (sequence_number m)).
      now rewrite (backlog_next log Hlog c p m Hfirst).
    + rewrite <- Hfirst. apply (take_take_drop (backlog log c) 100 100).
Qed.

End FirstAndLatest.

Lemma getFirstTopicMessage_first_witness :
  getFirstTopicMessage (MirrorNode.configured "https://mirror")
    (MirrorNode.serve "https://mirror" "0.0.5" (MirrorNode.numbered 1 3)) "0.0.5"
  = Return (Some (MirrorNode.entry 1 "")).
Proof.
  apply (getFirstTopicMessage_first (MirrorNode.configured "https://mirror")
           "https://mirror" eq_refl ltac:(discriminate) "0.0.5"
           (MirrorNode.numbered 1 3))
    with (rest := MirrorNode.numbered 2 2).
  - reflexivity.
  - apply (numbered_topic_log 1 3). lia.
Defined.

Lemma poll_from_latest_witness :
  exists n,
    getLatestSequenceNumber (MirrorNode.configured "https://mirror")
      (MirrorNode.serve "https://mirror" "0.0.5" (MirrorNode.numbered 1 3))
      "0.0.5"
    = Return (Some n)
    /\ getNewMessages (MirrorNode.configured "https://mirror")
         (MirrorNode.serve "https://mirror" "0.0.5"
            (MirrorNode.numbered 1 3 ++ MirrorNode.numbered 4 2))
         "0.0.5" n
       = Return (firstn 100 (MirrorNode.numbered 4 2)).
Proof.
  apply (poll_from_latest (MirrorNode.configured "https://mirror")
           "https://mirror" eq_refl ltac:(discriminate) "0.0.5").
  - change (MirrorNode.numbered 1 3 ++ MirrorNode.numbered 4 2)
      with (MirrorNode.numbered 1 5).
    apply numbered_topic_log. lia.
  - discriminate.
Defined.

Lemma successive_polls_witness :
  0 < sequence_number (MirrorNode.entry 100 "")
  /\ exists batch,
       getNewMessages (MirrorNode.configured "https://mirror")
         (MirrorNode.serve "https://mirror" "0.0.5" (MirrorNode.numbered 1 150))
         "0.0.5" (sequence_number (MirrorNode.entry 100 ""))
       = Return batch
       /\ (MirrorNode.numbered 1 99 ++ [MirrorNode.entry 100 ""]) ++ batch
          = firstn 200 (MirrorNode.backlog (MirrorNode.numbered 1 150) 0).
Proof.
  apply (successive_polls (MirrorNode.configured "https://mirror")
           "https://mirror" eq_refl ltac:(discriminate) "0.0.5"
           (MirrorNode.numbered 1 150) 0).
  - apply numbered_topic_log. lia.
  - vm_compute. reflexivity.
Defined.

(** ** Ranges: bounds that are inverted, absent or zero *)

Lemma scan_page_zero_end (startSequence : Z) (page : list message) :
  forall allMessages lastSequence hasMore,
    scan_page startSequence (Some 0) page allMessages lastSequence hasMore
    = scan_page startSequence None page allMessages lastSequence hasMore.
Proof.
  induction page as [| m rest IH]; intros; [reflexivity |].
  cbn [scan_page truthy_opt_number truthy_number Z.eqb negb andb].
  apply IH.
Qed.

Lemma range_loop_zero_end (process_env : gmap string string)
    (https_get : string -> http_outcome) (topicId : string)
    (startSequence : Z) (fuel : nat) :
  forall allMessages lastSequence,
    range_loop fuel process_env https_get topicId startSequence (Some 0)
      allMessages lastSequence
    = range_loop fuel process_env https_get topicId startSequence None
        allMessages lastSequence.
Proof.
  induction fuel as [| fuel IH]; intros; [reflexivity |].
  cbn [range_loop].
  destruct (queryTopicMessages _ _ _ _) as [response | err]; [| reflexivity].
  destruct (messages response) as [[| x page'] |]; try reflexivity.
  rewrite scan_page_zero_end.
  destruct (scan_page startSequence None (x :: page') allMessages lastSequence true)
    as [[all' last'] more'].
  destruct (Z.of_nat (length (x :: page')) <? 100); [reflexivity |].
  destruct more'; [apply IH | reflexivity].
Qed.

(** With no end, a page of entries from the start on is taken whole. *)
Lemma scan_page_open (startSequence : Z) (p : list message) (m : message) :
  forall allMessages lastSequence hasMore,
    Forall (fun x => startSequence <= sequence_number x) (p ++ [m]) ->
    scan_page startSequence None (p ++ [m]) allMessages lastSequence hasMore
    = (allMessages ++ p ++ [m], sequence_number m, hasMore).
Proof.
  induction p as [| y p IH]; intros allMessages lastSequence hasMore Hall.
  - apply Forall_inv in Hall. cbn [app scan_page truthy_opt_number andb].
    destruct (Z.leb_spec startSequence (sequence_number m)); [reflexivity | lia].
  - rewrite <- app_comm_cons in *.
    pose proof (Forall_inv Hall) as Hy. cbn beta in Hy.
    apply Forall_inv_tail in Hall.
    cbn [scan_page truthy_opt_number andb].
    destruct (Z.leb_spec startSequence (sequence_number y)); [| lia].
    rewrite IH by exact Hall. now rewrite <- app_assoc.
Qed.

Section RangeEdges.
Import MirrorNode.

Variable process_env : gmap string string.
Variable base : string.
Hypothesis mirror_set : process_env !! "MIRROR_NODE_URL" = Some base.
Hypothesis mirror_nonempty : base <> EmptyString.

Variable topicId : string.
Variable log : list message.
Hypothesis log_ok : topic_log log.

(** Without an end the loop reads the backlog to its last entry. *)
Lemma range_loop_drains (startSequence : Z) (fuel : nat) :
  forall (allMessages : list message) (lastSequence : Z),
    startSequence - 1 <= lastSequence ->
    (length (backlog log lastSequence) < fuel)%nat ->
    range_loop fuel process_env (serve base topicId log) topicId
      startSequence None allMessages lastSequence
    = Some (Return (allMessages ++ backlog log lastSequence)).
Proof.
  induction fuel as [| fuel IH]; intros allMessages lastSequence Hfrom Hfuel;
    [lia |].
  cbn [range_loop]. fold (after_options lastSequence).
  rewrite (queryTopicMessages_served _ _ mirror_set mirror_nonempty).
  cbn [messages]. rewrite page_after_topic_log by exact log_ok.
  fold (backlog log lastSequence).
  pose proof (backlog_later log lastSequence) as Hlater.
  pose proof (firstn_skipn 100 (backlog log lastSequence)) as Hsplit.
  destruct (firstn 100 (backlog log lastSequence)) as [| x page'] eqn:Hpage.
  { apply firstn_nil_inv in Hpage. rewrite Hpage. now rewrite app_nil_r. }
  set (page := x :: page') in *.
  assert (Forall (fun m => startSequence <= sequence_number m) page) as Hstart.
  { rewrite <- Hpage. apply Forall_take.
    eapply Forall_impl; [exact Hlater |]. cbn. intros; lia. }
  change (match Some page with
          | Some [] | None => ?a
          | Some (y :: l) => @?f y l
          end) with (f x page').
  cbn beta. fold page.
  destruct (nonempty_snoc x page') as (p & m & Hsnoc). fold page in Hsnoc.
  rewrite Hsnoc at 1. rewrite scan_page_open by (now rewrite <- Hsnoc).
  rewrite <- Hsnoc.
  destruct (Z.ltb_spec (Z.of_nat (length page)) 100) as [Hshort | Hfull].
  - do 3 f_equal. rewrite <- Hpage. apply firstn_short. rewrite Hpage. lia.
  - assert (backlog log (sequence_number m)
            = skipn 100 (backlog log lastSequence)) as Hnext.
    { apply (backlog_next log log_ok lastSequence p). now rewrite Hpage. }
    rewrite IH.
    + rewrite Hnext. rewrite <- Hsplit at 2. now rewrite <- app_assoc.
    + assert (startSequence <= sequence_number m); [| lia].
      rewrite Forall_forall in Hstart. apply Hstart.
      rewrite Hsnoc. apply list_elem_of_In, in_or_app. right. now left.
    + rewrite Hnext. rewrite length_skipn.
      assert (length (backlog log lastSequence) >= 100)%nat; [| lia].
      rewrite <- Hsplit, length_app. lia.
Qed.

(** X7: the bounds of [getMessagesInRange] are not checked against each
    other or against the log. For any start from 1 on and any end other
    than 0, also a negative one or one before the start, the call returns
    the entries numbered from start to end; when the end lies before the
    start that is the empty list, not an error. *)
Theorem getMessagesInRange_any_bounds (startSequence e : Z) (fuel : nat) :
  1 <= startSequence ->
  e <> 0 ->
  (length log < fuel)%nat ->
  getMessagesInRange fuel process_env (serve base topicId log) topicId
    startSequence (Some e)
  = Some (Return (filter (fun m => startSequence <= sequence_number m <= e) log))
  /\ (e < startSequence ->
      getMessagesInRange fuel process_env (serve base topicId log) topicId
        startSequence (Some e)
      = Some (Return [])).
Proof.
  intros Hstart He Hfuel.
  assert (getMessagesInRange fuel process_env (serve base topicId log) topicId
            startSequence (Some e)
          = Some (Return (filter
                            (fun m => startSequence <= sequence_number m <= e)
                            log))) as Hrange.
  { unfold getMessagesInRange.
    rewrite (range_loop_reads process_env base mirror_set mirror_nonempty
               topicId log log_ok startSequence e He); try lia.
    - cbn [option_map rethrow app]. do 2 f_equal.
      unfold backlog. rewrite list_filter_filter.
      apply list_filter_iff. intros m. lia.
    - unfold backlog. pose proof (length_filter
        (fun m => startSequence - 1 < sequence_number m) log). lia. }
  split; [exact Hrange |].
  intros Hinv. rewrite Hrange. do 2 f_equal.
  apply (filter_none (fun m => startSequence <= sequence_number m <= e)).
  apply Forall_forall. intros m _. lia.
Qed.

(** X8: an end that is left out, and an end of 0, mean no end: the call
    reads page after page and returns every entry of the log numbered
    from the start on, however many pages that takes. *)
Theorem getMessagesInRange_open_end (startSequence : Z)
    (endSequence : option Z) (fuel : nat) :
  endSequence = None \/ endSequence = Some 0 ->
  (length log < fuel)%nat ->
  getMessagesInRange fuel process_env (serve base topicId log) topicId
    startSequence endSequence
  = Some (Return (filter (fun m => startSequence <= sequence_number m) log)).
Proof.
  intros Hend Hfuel. unfold getMessagesInRange.
  assert (range_loop fuel process_env (serve base topicId log) topicId
            startSequence endSequence [] (startSequence - 1)
          = range_loop fuel process_env (serve base topicId log) topicId
              startSequence None [] (startSequence - 1)) as ->.
  { destruct Hend as [-> | ->]; [reflexivity | apply range_loop_zero_end]. }
  rewrite range_loop_drains; try lia.
  - cbn [option_map rethrow app]. do 2 f_equal.
    unfold backlog. apply list_filter_iff. intros m. lia.
  - unfold backlog. pose proof (length_filter
      (fun m => startSequence - 1 < sequence_number m) log). lia.
Qed.

End RangeEdges.

Lemma getMessagesInRange_any_bounds_witness :
  getMessagesInRange 6 (MirrorNode.configured "https://mirror")
    (MirrorNode.serve "https://mirror" "0.0.5" (MirrorNode.numbered 1 5))
    "0.0.5" 4 (Some 2)
  = Some (Return []).
Proof.
  apply (getMessagesInRange_any_bounds (MirrorNode.configured "https://mirror")
           "https://mirror" eq_refl ltac:(discriminate) "0.0.5"
           (MirrorNode.numbered 1 5) (numbered_topic_log 1 5 ltac:(lia))
           4 2 6); cbn; lia.
Defined.

Lemma getMessagesInRange_open_end_witness :
  getMessagesInRange 6 (MirrorNode.configured "https://mirror")
    (MirrorNode.serve "https://mirror" "0.0.5" (MirrorNode.numbered 1 5))
    "0.0.5" 3 (Some 0)
  = Some (Return (MirrorNode.numbered 3 3)).
Proof.
  apply (getMessagesInRange_open_end (MirrorNode.configured "https://mirror")
           "https://mirror" eq_refl ltac:(discriminate) "0.0.5"
           (MirrorNode.numbered 1 5) (numbered_topic_log 1 5 ltac:(lia))
           3 (Some 0) 6).
  - now right.
  - cbn. lia.
Defined.

(** ** Ranges against any service *)

Section RangeAnyService.

Variable process_env : gmap string string.
Variable https_get : string -> http_outcome.
Variable topicId : string.
Variable startSequence : Z.
Variable endSequence : option Z.

Lemma scan_page_within (page : list message) :
  forall allMessages lastSequence hasMore all' last' more',
    Forall (within startSequence endSequence) allMessages ->
    scan_page startSequence endSequence page allMessages lastSequence hasMore
    = (all', last', more') ->
    Forall (within startSequence endSequence) all'.
Proof.
  induction page as [| m rest IH];
    intros allMessages lastSequence hasMore all' last' more' Hall Hscan.
  - cbn in Hscan. now injection Hscan as <- _ _.
  - cbn [scan_page] in Hscan.
    destruct (truthy_opt_number endSequence
              && match endSequence with
                 | Some e => e <? sequence_number m
                 | None => false
                 end) eqn:Hstop.
    + now injection Hscan as <- _ _.
    + apply IH in Hscan; [exact Hscan |].
      destruct (Z.leb_spec startSequence (sequence_number m)) as [Hm |];
        [| exact Hall].
      apply Forall_app. split; [exact Hall |].
      constructor; [| constructor].
      split; [exact Hm |].
      destruct endSequence as [e |]; [| exact I].
      intros He. cbn [truthy_opt_number] in Hstop. unfold truthy_number in Hstop.
      apply Z.eqb_neq in He. rewrite He in Hstop. cbn [negb andb] in Hstop.
      apply Z.ltb_ge in Hstop. exact Hstop.
Qed.

Lemma range_loop_within (fuel : nat) :
  forall allMessages lastSequence result,
    Forall (within startSequence endSequence) allMessages ->
    range_loop fuel process_env https_get topicId startSequence endSequence
      allMessages lastSequence = Some (Return result) ->
    Forall (within startSequence endSequence) result.
Proof.
  induction fuel as [| fuel IH]; intros allMessages lastSequence result Hall Hrun;
    [discriminate |].
  cbn [range_loop] in Hrun.
  destruct (queryTopicMessages _ _ _ _) as [response | err]; [| discriminate].
  destruct (messages response) as [[| x page'] |];
    try (now injection Hrun as <-).
  destruct (scan_page startSequence endSequence (x :: page')
              allMessages lastSequence true)
    as [[all' last'] more'] eqn:Hscan.
  apply scan_page_within in Hscan; [| exact Hall].
  destruct (Z.of_nat (length (x :: page')) <? 100);
    [now injection Hrun as <- |].
  destruct more'; [| now injection Hrun as <-].
  now apply (IH all' last').
Qed.

(** X9: whatever the service answers, also when it ignores the filter or
    the order it was asked for, [getMessagesInRange] returns no entry
    numbered before the start, and none numbered after an end that is
    given and not 0: the bounds are enforced on the client's side. *)
Theorem getMessagesInRange_within_bounds (fuel : nat) (result : list message) :
  getMessagesInRange fuel process_env https_get topicId
    startSequence endSequence = Some (Return result) ->
  Forall (within startSequence endSequence) result.
Proof.
  unfold getMessagesInRange. intros Hrun.
  destruct (range_loop fuel process_env https_get topicId startSequence
              endSequence [] (startSequence - 1)) as [[ms | err] |] eqn:Hloop;
    try discriminate.
  injection Hrun as <-.
  apply (range_loop_within fuel [] (startSequence - 1)); [constructor | exact Hloop].
Qed.

(** X10: all or nothing. When a full page has been read and taken, and
    the next request throws, the call throws as well, under its prefix:
    the entries already collected are not returned. *)
Theorem getMessagesInRange_all_or_nothing (e : Z) (p : list message)
    (m : message) (err : string) (fuel : nat) :
  endSequence = Some e -> e <> 0 ->
  queryTopicMessages process_env https_get topicId
    (after_options (startSequence - 1))
  = Return {| messages := Some (p ++ [m]) |} ->
  length (p ++ [m]) = 100%nat ->
  Forall (fun x => startSequence <= sequence_number x <= e) (p ++ [m]) ->
  queryTopicMessages process_env https_get topicId
    (after_options (sequence_number m))
  = Throw err ->
  getMessagesInRange (S (S fuel)) process_env https_get topicId
    startSequence endSequence
  = Some (Throw ("Failed to get messages in range: " +:+ err)).
Proof.
  intros -> He Hfirst Hfull Hin Hnext.
  unfold getMessagesInRange. cbn [range_loop].
  fold (after_options (startSequence - 1)). rewrite Hfirst. cbn [messages].
  remember (p ++ [m]) as page eqn:Hpage.
  destruct page as [| x page']; [destruct p; discriminate |].
  cbv iota beta. rewrite Hpage in *.
  rewrite scan_page_inside by assumption.
  rewrite Hfull. change (Z.of_nat 100 <? 100) with false. cbv iota.
  fold (after_options (sequence_number m)). now rewrite Hnext.
Qed.

End RangeAnyService.

Lemma getMessagesInRange_within_bounds_witness :
  Forall (within 10 (Some 50)) (MirrorNode.numbered 10 41).
Proof.
  apply (getMessagesInRange_within_bounds
           (MirrorNode.configured "https://mirror") stuck_service "0.0.5"
           10 (Some 50) 1).
  vm_compute. reflexivity.
Defined.

Lemma getMessagesInRange_all_or_nothing_witness :
  getMessagesInRange 2 (MirrorNode.configured "https://mirror")
    (flaky "https://mirror" "0.0.5" (MirrorNode.numbered 1 150)
       "https://mirror/api/v1/topics/0.0.5/messages?limit=100&order=asc&sequencenumber=gt%3A100")
    "0.0.5" 1 (Some 150)
  = Some (Throw ("Failed to get messages in range: "
                 +:+ "Mirror Node request failed: socket hang up")).
Proof.
  apply (getMessagesInRange_all_or_nothing
           (MirrorNode.configured "https://mirror")
           (flaky "https://mirror" "0.0.5" (MirrorNode.numbered 1 150)
              "https://mirror/api/v1/topics/0.0.5/messages?limit=100&order=asc&sequencenumber=gt%3A100")
           "0.0.5" 1 (Some 150) 150
           (MirrorNode.numbered 1 99) (MirrorNode.entry 100 "")).
  - reflexivity.
  - discriminate.
  - vm_compute. reflexivity.
  - reflexivity.
  - apply Forall_forall. intros x Hx.
    change (MirrorNode.numbered 1 99 ++ [MirrorNode.entry 100 ""])
      with (MirrorNode.numbered 1 100) in Hx.
    pose proof (numbered_above 100 0 1 ltac:(lia)) as Hlow.
    rewrite Forall_forall in Hlow. specialize (Hlow x Hx).
    apply list_elem_of_In, (in_map sequence_number) in Hx.
    split; [lia |].
    revert Hx. generalize (sequence_number x). intros z Hz.
    vm_compute in Hz.
    repeat (destruct Hz as [<- | Hz]; [discriminate |]). destruct Hz.
  - vm_compute. reflexivity.
Defined.

(** ** What a request carries *)

Lemma truthy_number_spec (n : Z) : truthy_number n = true <-> n <> 0.
Proof.
  unfold truthy_number. destruct (Z.eqb_spec n 0); cbn; split; intros; congruence.
Qed.

Lemma limit_part_spec (options : query_options) (k v : string) :
  In (k, v) match limit options with
            | Some l => if truthy_number l then [("limit", number_toString l)] else []
            | None => []
            end
  <-> k = "limit"
      /\ exists l, limit options = Some l /\ l <> 0 /\ v = number_toString l.
Proof.
  destruct (limit options) as [l |].
  - destruct (truthy_number l) eqn:Hl.
    + apply truthy_number_spec in Hl. cbn. split.
      * intros [[= <- <-] | []]. split; [reflexivity |]. now exists l.
      * intros (-> & l' & [= <-] & _ & ->). now left.
    + split; [intros [] |].
      intros (_ & l' & [= <-] & Hne & _).
      apply truthy_number_spec in Hne. congruence.
  - split; [intros [] | intros (_ & l' & [=] & _)].
Qed.

Lemma order_part_spec (options : query_options) (k v : string) :
  In (k, v) match order options with
            | Some o => if truthy_string o then [("order", o)] else []
            | None => []
            end
  <-> k = "order" /\ order options = Some v /\ v <> EmptyString.
Proof.
  destruct (order options) as [o |].
  - destruct (truthy_string o) eqn:Ho.
    + apply truthy_string_spec in Ho. cbn. split.
      * intros [[= <- <-] | []]. auto.
      * intros (-> & [= <-] & _). now left.
    + split; [intros [] |].
      intros (_ & [= <-] & Hne). apply truthy_string_spec in Hne. congruence.
  - split; [intros [] | intros (_ & [=] & _)].
Qed.

Lemma sequence_part_spec (options : query_options) (k v : string) :
  In (k, v) match sequenceNumber options, operator options with
            | Some n, Some op =>
                if truthy_number n && truthy_string op
                then [("sequencenumber", op +:+ ":" +:+ number_toString n)]
                else []
            | _, _ => []
            end
  <-> k = "sequencenumber"
      /\ exists n op,
           sequenceNumber options = Some n /\ operator options = Some op
           /\ n <> 0 /\ op <> EmptyString
           /\ v = op +:+ ":" +:+ number_toString n.
Proof.
  destruct (sequenceNumber options) as [n |], (operator options) as [op |];
    try (split; [intros [] | intros (_ & n' & op' & Hn & Hop & _); discriminate]).
  destruct (truthy_number n && truthy_string op) eqn:Hboth.
  - apply andb_true_iff in Hboth as [Hn Hop].
    apply truthy_number_spec in Hn. apply truthy_string_spec in Hop.
    cbn. split.
    + intros [[= <- <-] | []]. split; [reflexivity |]. now exists n, op.
    + intros (-> & n' & op' & [= <-] & [= <-] & _ & _ & ->). now left.
  - split; [intros [] |].
    intros (_ & n' & op' & [= <-] & [= <-] & Hn & Hop & _).
    apply truthy_number_spec in Hn. apply truthy_string_spec in Hop.
    rewrite Hn, Hop in Hboth. discriminate.
Qed.

(** X11: what [queryTopicMessages] puts in the query string, exactly. The
    service reads back the parameters as they were appended; their names
    are among limit, order and sequencenumber, each at most once. A
    parameter is there if and only if its option is given and truthy;
    sequencenumber needs both the number and the operator, and carries
    the operator as given: any non-empty operator is passed on, it is not
    checked against gt, gte, lt, lte. *)
Theorem query_params_exact (options : query_options) :
  URLSearchParams.parse (URLSearchParams.toString (query_params options))
  = query_params options
  /\ (forall k v, In (k, v) (query_params options) ->
                  In k ["limit"; "order"; "sequencenumber"])
  /\ NoDup (map fst (query_params options))
  /\ (forall v, In ("limit", v) (query_params options) <->
                exists l, limit options = Some l /\ l <> 0
                          /\ v = number_toString l)
  /\ (forall v, In ("order", v) (query_params options) <->
                order options = Some v /\ v <> EmptyString)
  /\ (forall v, In ("sequencenumber", v) (query_params options) <->
                exists n op,
                  sequenceNumber options = Some n /\ operator options = Some op
                  /\ n <> 0 /\ op <> EmptyString
                  /\ v = op +:+ ":" +:+ number_toString n).
Proof.
  split; [apply parse_toString |].
  assert (forall k v, In (k, v) (query_params options) <->
            (k = "limit"
             /\ exists l, limit options = Some l /\ l <> 0
                          /\ v = number_toString l)
            \/ (k = "order" /\ order options = Some v /\ v <> EmptyString)
            \/ (k = "sequencenumber"
                /\ exists n op,
                     sequenceNumber options = Some n
                     /\ operator options = Some op
                     /\ n <> 0 /\ op <> EmptyString
                     /\ v = op +:+ ":" +:+ number_toString n)) as Hin.
  { intros k v. rewrite query_params_parts, !in_app_iff.
    now rewrite limit_part_spec, order_part_spec, sequence_part_spec. }
  split; [| split; [| split; [| split]]].
  - intros k v Hkv. apply Hin in Hkv. cbn.
    destruct Hkv as [[-> _] | [[-> _] | [-> _]]]; auto.
  - clear Hin. rewrite query_params_parts.
    destruct (limit options) as [l |]; [destruct (truthy_number l) |];
      (destruct (order options) as [o |]; [destruct (truthy_string o) |]);
      (destruct (sequenceNumber options) as [n |], (operator options) as [op |];
       [destruct (truthy_number n && truthy_string op) | | |]);
      cbn [map fst app];
      apply (bool_decide_unpack _); vm_compute; exact I.
  - intros v. rewrite Hin. split.
    + intros [[_ H] | [[[=] _] | [[=] _]]]. exact H.
    + intros H. left. auto.
  - intros v. rewrite Hin. split.
    + intros [[[=] _] | [[_ H] | [[=] _]]]. exact H.
    + intros H. right. left. auto.
  - intros v. rewrite Hin. split.
    + intros [[[=] _] | [[[=] _] | [_ H]]]. exact H.
    + intros H. right. right. auto.
Qed.

Lemma encode_app (a b : string) :
  URLSearchParams.encode (a +:+ b)
  = URLSearchParams.encode a +:+ URLSearchParams.encode b.
Proof.
  induction a as [| x a IH]; [reflexivity |].
  rewrite append_cons. cbn [URLSearchParams.encode].
  now rewrite IH, append_assoc.
Qed.

Lemma encode_uint (d : Decimal.uint) :
  URLSearchParams.encode (NilEmpty.string_of_uint d)
  = NilEmpty.string_of_uint d.
Proof.
  induction d; cbn [NilEmpty.string_of_uint URLSearchParams.encode];
    [reflexivity | ..]; rewrite IHd; reflexivity.
Qed.

(** The digits and the sign of a number pass the serializer unchanged. *)
Lemma encode_number (n : Z) :
  URLSearchParams.encode (number_toString n) = number_toString n.
Proof.
  unfold number_toString.
  destruct (Z.to_int n) as [d | d]; cbn [NilZero.string_of_int].
  - destruct d; try reflexivity; apply encode_uint.
  - cbn [URLSearchParams.encode].
    assert (URLSearchParams.encode (NilZero.string_of_uint d)
            = NilZero.string_of_uint d) as ->; [| reflexivity].
    destruct d; try reflexivity; apply encode_uint.
Qed.

Section PollRequest.

Variable process_env : gmap string string.
Variable base : string.
Hypothesis mirror_set : process_env !! "MIRROR_NODE_URL" = Some base.
Hypothesis mirror_nonempty : base <> EmptyString.

(** X12: the request of a poll, on the wire, for a cursor that is a safe
    integer. From a cursor other than 0 the URL ends in
    limit=100&order=asc&sequencenumber=gt%3A followed by the cursor in
    decimal, the colon percent-encoded; from the cursor 0 it ends in
    limit=100&order=asc. The topic id is put into the path as it is.
    [getNewMessages] returns the [messages] of the document at that URL
    as they are, and the empty list when the document has none. *)
Theorem poll_request (topicId : string) (c : Z) :
  safe_integer c ->
  (c <> 0 ->
   query_url process_env topicId (after_options c)
   = Return (base +:+ "/api/v1/topics/" +:+ topicId
             +:+ "/messages?limit=100&order=asc&sequencenumber=gt%3A"
             +:+ number_toString c))
  /\ query_url process_env topicId (after_options 0)
     = Return (base +:+ "/api/v1/topics/" +:+ topicId
               +:+ "/messages?limit=100&order=asc")
  /\ (forall https_get url r,
         query_url process_env topicId (after_options c) = Return url ->
         https_get url = Body r ->
         getNewMessages process_env https_get topicId c
         = Return match messages r with Some ms => ms | None => [] end).
Proof.
  intros _. split; [| split].
  - intros Hc. rewrite (query_url_configured _ _ mirror_set mirror_nonempty).
    rewrite query_params_after by exact Hc.
    unfold URLSearchParams.toString.
    cbn [map URLSearchParams.join_amp].
    unfold URLSearchParams.serialize_pair at 3. cbn [fst snd].
    rewrite encode_app.
    change (String ":" (number_toString c))
      with (":" +:+ number_toString c).
    rewrite encode_app, encode_number.
    rewrite !append_assoc. reflexivity.
  - rewrite (query_url_configured _ _ mirror_set mirror_nonempty).
    rewrite !append_assoc. reflexivity.
  - intros https_get url r Hurl Hget.
    unfold getNewMessages, queryTopicMessages. fold (after_options c).
    rewrite Hurl. cbn [bind]. rewrite Hget. reflexivity.
Qed.

End PollRequest.

Lemma poll_request_witness :
  query_url (MirrorNode.configured "https://mirror") "0.0.5" (after_options (-7))
  = Return "https://mirror/api/v1/topics/0.0.5/messages?limit=100&order=asc&sequencenumber=gt%3A-7".
Proof.
  apply (poll_request (MirrorNode.configured "https://mirror") "https://mirror"
           eq_refl ltac:(discriminate) "0.0.5" (-7)).
  - unfold safe_integer. lia.
  - discriminate.
Defined.

(** ** The writers *)


